(** * Shallow embedding of converter_logic.py (jupyter-markdown-mcp)

    Python [str] values are modelled as lists of ASCII characters; indices are
    [nat] positions into those lists, and [s[a:b]] is [firstn (b-a) (skipn a s)].
    The regular expression of [convert_md_to_ipynb] is embedded as a matcher
    that follows the backtracking order of Python's [re] engine for that one
    pattern, and [re.finditer] as a left-to-right scan over start positions. *)

From Stdlib Require Import Ascii String List Arith Lia Bool.
Import ListNotations.

Definition pystr := list ascii.

(** String literals of the source, as character lists. *)
Definition lit (s : string) : pystr := list_ascii_of_string s.

Definition nl : ascii := "010"%char.
Definition backtick : ascii := "`"%char.

(** ** Character classes *)

(** [str.isspace] / regex [\s] on ASCII: \t \n \v \f \r, \x1c-\x1f and space. *)
Definition is_space (c : ascii) : bool :=
  match nat_of_ascii c with
  | 9 | 10 | 11 | 12 | 13 | 28 | 29 | 30 | 31 | 32 => true
  | _ => false
  end.

(** regex [\w] on ASCII: letters, digits and underscore. *)
Definition is_word (c : ascii) : bool :=
  let n := nat_of_ascii c in
  ((48 <=? n) && (n <=? 57)) || ((65 <=? n) && (n <=? 90))
  || ((97 <=? n) && (n <=? 122)) || (n =? 95).

(** [str.lower] on ASCII. *)
Definition lower_char (c : ascii) : ascii :=
  let n := nat_of_ascii c in
  if (65 <=? n) && (n <=? 90) then ascii_of_nat (n + 32) else c.

Definition lower (s : pystr) : pystr := map lower_char s.

Fixpoint str_eqb (a b : pystr) : bool :=
  match a, b with
  | [], [] => true
  | x :: a', y :: b' => Ascii.eqb x y && str_eqb a' b'
  | _, _ => false
  end.

(** [s.startswith(p)] *)
Fixpoint prefixb (p s : pystr) : bool :=
  match p, s with
  | [], _ => true
  | x :: p', y :: s' => Ascii.eqb x y && prefixb p' s'
  | _ :: _, [] => false
  end.

(** ** [str.strip()] *)

Fixpoint lstrip (s : pystr) : pystr :=
  match s with
  | [] => []
  | c :: s' => if is_space c then lstrip s' else s
  end.

Definition rstrip (s : pystr) : pystr := rev (lstrip (rev s)).

Definition strip (s : pystr) : pystr := rstrip (lstrip s).

(** Python truthiness of a string or list: [if s:] *)
Definition truthy {A} (s : list A) : bool :=
  match s with [] => false | _ => true end.

(** ** [s.split(sep)] for a non-empty separator

    Scan left to right; at a position where [sep] starts (and that is not
    inside an occurrence already cut), close the current piece and skip
    the rest of the separator. [cur] holds the current piece reversed. *)
Fixpoint split_go (sep s : pystr) (skip : nat) (cur : pystr) : list pystr :=
  match s with
  | [] => [rev cur]
  | c :: s' =>
      match skip with
      | S k => split_go sep s' k cur
      | 0 =>
          if prefixb sep s then rev cur :: split_go sep s' (length sep - 1) []
          else split_go sep s' 0 (c :: cur)
      end
  end.

Definition split (s sep : pystr) : list pystr := split_go sep s 0 [].

(** [sep.join(l)] *)
Fixpoint join (sep : pystr) (l : list pystr) : pystr :=
  match l with
  | [] => []
  | [x] => x
  | x :: l' => x ++ sep ++ join sep l'
  end.

(** [s[a:b]] and [s[a:]] *)
Definition slice (s : pystr) (a b : nat) : pystr := firstn (b - a) (skipn a s).
Definition slice_from (s : pystr) (a : nat) : pystr := skipn a s.

(** ** The pattern [```(?:(\w+))?\s*\n(.*?)\n```] with [re.DOTALL]

    Matching at one start position, in the order in which the backtracking
    engine tries the alternatives: the optional group first with [\w+] as
    long as possible and then shorter, then without the group; [\s*] as long
    as possible and then shorter; the lazy body [(.*?)] as short as possible. *)

Definition fence : pystr := lit "```".
Definition close_fence : pystr := nl :: fence.

(** length of the longest prefix of word characters / of whitespace *)
Fixpoint word_run (t : pystr) : nat :=
  match t with c :: t' => if is_word c then S (word_run t') else 0 | [] => 0 end.

Fixpoint ws_run (t : pystr) : nat :=
  match t with c :: t' => if is_space c then S (ws_run t') else 0 | [] => 0 end.

(** [(.*?)\n```]: the shortest body followed by [\n```]; returns the body
    and the text after the closing fence. *)
Fixpoint lazy_body (t : pystr) : option (pystr * pystr) :=
  if prefixb close_fence t then Some ([], skipn 4 t)
  else match t with
       | [] => None
       | c :: t' =>
           match lazy_body t' with
           | Some (b, r) => Some (c :: b, r)
           | None => None
           end
       end.

(** [\s*\n(.*?)\n```] with [\s*] consuming [slen] characters, then
    [slen - 1], ..., [0]. *)
Fixpoint try_ws (t : pystr) (slen : nat) : option (pystr * pystr) :=
  let attempt :=
    match skipn slen t with
    | c :: u => if Ascii.eqb c nl then lazy_body u else None
    | [] => None
    end in
  match attempt with
  | Some r => Some r
  | None => match slen with 0 => None | S k => try_ws t k end
  end.

Definition ws_then_body (t : pystr) : option (pystr * pystr) :=
  try_ws t (ws_run t).

(** [(?:(\w+))?] with [\w+] of length [wlen], [wlen - 1], ..., [1], then the
    group skipped. Result: group 1, group 2 and the rest of the input. *)
Fixpoint try_word (t : pystr) (wlen : nat) : option (option pystr * pystr * pystr) :=
  match wlen with
  | 0 =>
      match ws_then_body t with
      | Some (b, r) => Some (None, b, r)
      | None => None
      end
  | S k =>
      match ws_then_body (skipn (S k) t) with
      | Some (b, r) => Some (Some (firstn (S k) t), b, r)
      | None => try_word t k
      end
  end.

Definition match_at (t : pystr) : option (option pystr * pystr * pystr) :=
  if prefixb fence t then
    let u := skipn 3 t in try_word u (word_run u)
  else None.

(** A match object: [match.span()], [match.group(1)], [match.group(2)]. *)
Record rmatch := mkMatch {
  m_start : nat;
  m_end : nat;
  m_group1 : option pystr;
  m_group2 : pystr
}.

(** [re.finditer]: try every start position from left to right; after a
    match the search resumes at its end ([skip] counts the characters of
    the match still to pass). The pattern never matches the empty string. *)
Fixpoint finditer_go (t : pystr) (skip pos : nat) : list rmatch :=
  match t with
  | [] => []
  | _ :: t' =>
      match skip with
      | S k => finditer_go t' k (S pos)
      | 0 =>
          match match_at t with
          | Some (g1, g2, r) =>
              let len := length t - length r in
              mkMatch pos (pos + len) g1 g2 :: finditer_go t' (len - 1) (S pos)
          | None => finditer_go t' 0 (S pos)
          end
      end
  end.

Definition finditer (section : pystr) : list rmatch := finditer_go section 0 0.

(** ** Cells (nbformat v4 cells, by [cell_type] and [source]) *)

Inductive cell :=
| Markdown (source : pystr)
| Code (source : pystr)
| Raw (source : pystr).

Definition cell_source (c : cell) : pystr :=
  match c with Markdown s | Code s | Raw s => s end.

Definition CELL_BOUNDARY : pystr := lit "<!-- NOTEBOOK_CELL_BOUNDARY -->".

(** ** [convert_md_to_ipynb], the transcoding part (lines 113-186) *)

(** [section_cells] entries: [('markdown', text)] or [('code', text)] *)
Inductive kind := K_markdown | K_code.

(** One iteration of [for match in re.finditer(...)] (lines 138-155);
    the loop state is [(last_end, section_cells)]. *)
Definition match_step (section : pystr) (st : nat * list (kind * pystr)) (m : rmatch)
  : nat * list (kind * pystr) :=
  let '(last_end, section_cells) := st in
  let start := m_start m in
  let language := match m_group1 m with Some l => l | None => lit "python" end in
  let code := strip (m_group2 m) in
  let section_cells :=
    if last_end <? start then
      let text := strip (slice section last_end start) in
      if truthy text then section_cells ++ [(K_markdown, text)] else section_cells
    else section_cells in
  let section_cells :=
    if truthy code then
      let code :=
        if negb (str_eqb (lower language) (lit "python"))
        then lit "# Language: " ++ language ++ [nl] ++ code
        else code in
      section_cells ++ [(K_code, code)]
    else section_cells in
  (m_end m, section_cells).

(** Lines 134-165: the cells of one (already stripped) section. *)
Definition process_section (section : pystr) : list (kind * pystr) :=
  let '(last_end, section_cells) :=
    fold_left (match_step section) (finditer section) (0, []) in
  let section_cells :=
    if last_end <? length section then
      let text := strip (slice_from section last_end) in
      if truthy text then section_cells ++ [(K_markdown, text)] else section_cells
    else section_cells in
  if negb (truthy section_cells) && truthy section
  then [(K_markdown, section)]
  else section_cells.

Definition make_cell (kt : kind * pystr) : cell :=
  match kt with
  | (K_markdown, t) => Markdown t
  | (K_code, t) => Code t
  end.

(** [cell_count = {"markdown": .., "code": ..}] *)
Record md_counts := { cnt_markdown : nat; cnt_code : nat }.

Definition count_kind (cnt : md_counts) (k : kind) : md_counts :=
  match k with
  | K_markdown => {| cnt_markdown := S (cnt_markdown cnt); cnt_code := cnt_code cnt |}
  | K_code => {| cnt_markdown := cnt_markdown cnt; cnt_code := S (cnt_code cnt) |}
  end.

(** Lines 128-174: the loop over [content.split(CELL_BOUNDARY)]. *)
Definition sections_loop (content : pystr) : list cell * md_counts :=
  fold_left
    (fun '(cells, cnt) section =>
       let section := strip section in
       if negb (truthy section) then (cells, cnt)
       else
         let section_cells := process_section section in
         (cells ++ map make_cell section_cells,
          fold_left (fun c kt => count_kind c (fst kt)) section_cells cnt))
    (split content CELL_BOUNDARY)
    ([], {| cnt_markdown := 0; cnt_code := 0 |}).

(** Lines 123-184: the cells of the notebook built from [content] and the
    per-kind counts. *)
Definition md_to_cells (content : pystr) : list cell * md_counts :=
  let '(cells, cnt) := sections_loop content in
  match cells with
  | [] =>
      if truthy (strip content)
      then ([Markdown (strip content)],
            {| cnt_markdown := 1; cnt_code := cnt_code cnt |})
      else ([Code []], {| cnt_markdown := cnt_markdown cnt; cnt_code := 1 |})
  | _ => (cells, cnt)
  end.

Definition parse_cells (content : pystr) : list cell := fst (md_to_cells content).

(** ** [convert_ipynb_to_md], the transcoding part (lines 35-73) *)

Record nb_counts := { nc_markdown : nat; nc_code : nat; nc_raw : nat }.

Definition nb_counts0 : nb_counts := {| nc_markdown := 0; nc_code := 0; nc_raw := 0 |}.

Definition is_markdown (c : cell) : bool :=
  match c with Markdown _ => true | _ => false end.
Definition is_markdown_or_raw (c : cell) : bool :=
  match c with Code _ => false | _ => true end.

(** [i < len(cells) - 1 and p(cells[i + 1])] *)
Definition next_is (cells : list cell) (i : nat) (p : cell -> bool) : bool :=
  (i <? length cells - 1) &&
  match nth_error cells (S i) with Some c => p c | None => false end.

(** The body of [for i, cell in enumerate(notebook.cells)] (lines 42-66);
    the loop state is [(markdown_content, cell_count)]. *)
Definition ser_step (cells : list cell) (st : list pystr * nb_counts) (i : nat) (c : cell)
  : list pystr * nb_counts :=
  let '(content, cnt) := st in
  match c with
  | Markdown s =>
      let content :=
        if truthy (strip s) then
          let content := content ++ [s] in
          let content :=
            if next_is cells i is_markdown then content ++ [[]; CELL_BOUNDARY]
            else content in
          content ++ [[]]
        else content in
      (content, {| nc_markdown := S (nc_markdown cnt); nc_code := nc_code cnt;
                   nc_raw := nc_raw cnt |})
  | Code s =>
      let content :=
        if truthy (strip s) then content ++ [lit "```python"; s; fence; []]
        else content in
      (content, {| nc_markdown := nc_markdown cnt; nc_code := S (nc_code cnt);
                   nc_raw := nc_raw cnt |})
  | Raw s =>
      let content :=
        if truthy (strip s) then
          let content := content ++ [s] in
          let content :=
            if next_is cells i is_markdown_or_raw then content ++ [[]; CELL_BOUNDARY]
            else content in
          content ++ [[]]
        else content in
      (content, {| nc_markdown := nc_markdown cnt; nc_code := nc_code cnt;
                   nc_raw := S (nc_raw cnt) |})
  end.

(** [enumerate(notebook.cells)] *)
Fixpoint ser_loop (cells : list cell) (i : nat) (l : list cell)
  (st : list pystr * nb_counts) : list pystr * nb_counts :=
  match l with
  | [] => st
  | c :: l' => ser_loop cells (S i) l' (ser_step cells st i c)
  end.

(** [while markdown_content and not markdown_content[-1].strip(): pop()] *)
Fixpoint drop_blank_rev (l : list pystr) : list pystr :=
  match l with
  | x :: l' => if truthy (strip x) then l else drop_blank_rev l'
  | [] => []
  end.

Definition trim_trailing (l : list pystr) : list pystr := rev (drop_blank_rev (rev l)).

(** The text written to the [.md] file and the per-kind counts. *)
Definition cells_to_md (cells : list cell) : pystr * nb_counts :=
  let '(content, cnt) := ser_loop cells 0 cells ([], nb_counts0) in
  (join [nl] (trim_trailing content), cnt).

Definition serialize (cells : list cell) : pystr := fst (cells_to_md cells).

(** ** Paths ([pathlib.Path]) *)

(** [s.split(c)] for a one-character separator *)
Fixpoint split_char (c : ascii) (s : pystr) : list pystr :=
  match s with
  | [] => [[]]
  | x :: s' =>
      let r := split_char c s' in
      if Ascii.eqb x c then [] :: r
      else match r with h :: t => (x :: h) :: t | [] => [[x]] end
  end.

Definition slash : ascii := "/"%char.
Definition dot : ascii := "."%char.

(** The components pathlib keeps: empty and ["."] components are dropped. *)
Definition path_parts (p : pystr) : list pystr :=
  filter (fun x => truthy x && negb (str_eqb x [dot])) (split_char slash p).

(** [Path(p).name] *)
Definition path_name (p : pystr) : pystr := last (path_parts p) [].

(** [s.rfind(c)], [None] for [-1] *)
Fixpoint rfind_go (c : ascii) (s : pystr) (i : nat) (acc : option nat) : option nat :=
  match s with
  | [] => acc
  | x :: s' => rfind_go c s' (S i) (if Ascii.eqb x c then Some i else acc)
  end.

Definition rfind (c : ascii) (s : pystr) : option nat := rfind_go c s 0 None.

(** [PurePath.suffix] and [PurePath.stem]:
    [i = name.rfind('.'); if 0 < i < len(name) - 1: name[i:] / name[:i]] *)
Definition suffix_index (name : pystr) : option nat :=
  match rfind dot name with
  | Some i => if (0 <? i) && (i <? length name - 1) then Some i else None
  | None => None
  end.

Definition path_suffix (p : pystr) : pystr :=
  let name := path_name p in
  match suffix_index name with Some i => skipn i name | None => [] end.

Definition path_stem (p : pystr) : pystr :=
  let name := path_name p in
  match suffix_index name with Some i => firstn i name | None => name end.

(** The anchor [str(Path(d))] keeps: [//] for exactly two leading slashes
    (POSIX leaves their meaning to the system), [/] for one or for three and
    more, nothing for a relative path. *)
Definition path_root (d : pystr) : pystr :=
  match d with
  | c1 :: r =>
      if Ascii.eqb c1 slash then
        match r with
        | c2 :: r' =>
            if Ascii.eqb c2 slash then
              match r' with
              | c3 :: _ => if Ascii.eqb c3 slash then [slash] else [slash; slash]
              | [] => [slash; slash]
              end
            else [slash]
        | [] => [slash]
        end
      else []
  | [] => []
  end.

(** [str(Path(d) / x)] *)
Definition path_join (d x : pystr) : pystr :=
  path_root d ++
  match path_parts d with
  | [] => x
  | parts => join [slash] parts ++ [slash] ++ x
  end.

(** ** The file system the operations touch *)

(** File contents are the decoded text.  Reading in text mode turns every
    [\r\n] and every other [\r] into [\n]. *)
Definition cr : ascii := "013"%char.

Fixpoint univ_newlines (s : pystr) : pystr :=
  match s with
  | [] => []
  | c :: s' =>
      if Ascii.eqb c cr then
        nl :: match s' with
              | d :: s'' => if Ascii.eqb d nl then univ_newlines s'' else univ_newlines s'
              | [] => []
              end
      else c :: univ_newlines s'
  end.

Record FS := { fs_files : list (pystr * pystr); fs_dirs : list pystr }.

Definition lookup_file (fs : FS) (p : pystr) : option pystr :=
  match find (fun e => str_eqb (fst e) p) (fs_files fs) with
  | Some (_, d) => Some d
  | None => None
  end.

Definition is_dir (fs : FS) (p : pystr) : bool := existsb (str_eqb p) (fs_dirs fs).

(** [Path(p).exists()] *)
Definition path_exists (fs : FS) (p : pystr) : bool :=
  match lookup_file fs p with Some _ => true | None => is_dir fs p end.

(** A computation that may raise (the exception's [str(e)]) and that threads
    the file system. *)
Definition PyM (A : Type) : Type := FS -> (pystr + A) * FS.

Definition ret {A} (a : A) : PyM A := fun fs => (inr a, fs).
Definition raise {A} (msg : pystr) : PyM A := fun fs => (inl msg, fs).
Definition bind {A B} (m : PyM A) (k : A -> PyM B) : PyM B :=
  fun fs => match m fs with
            | (inr a, fs') => k a fs'
            | (inl e, fs') => (inl e, fs')
            end.

Notation "x <- m ;; k" := (bind m (fun x => k)) (at level 61, m at next level, right associativity).
Notation "m ;;; k" := (bind m (fun _ => k)) (at level 61, right associativity).

Definition when (b : bool) (m : PyM unit) : PyM unit := if b then m else ret tt.

Definition get_fs : PyM FS := fun fs => (inr fs, fs).

(** [output_path.mkdir(parents=True, exist_ok=True)]: fails when a file is in
    the way. *)
Definition mkdir (d : pystr) : PyM unit :=
  fun fs =>
    match lookup_file fs d with
    | Some _ => (inl (lit "[Errno 17] File exists: '" ++ d ++ lit "'"), fs)
    | None =>
        if is_dir fs d then (inr tt, fs)
        else (inr tt, {| fs_files := fs_files fs; fs_dirs := d :: fs_dirs fs |})
    end.

(** [open(p, 'r').read()]: text mode translates the line ends [\r\n] and
    [\r] into [\n]. *)
Definition read_file (p : pystr) : PyM pystr :=
  fun fs =>
    match lookup_file fs p with
    | Some d => (inr (univ_newlines d), fs)
    | None => (inl (lit "[Errno 21] Is a directory: '" ++ p ++ lit "'"), fs)
    end.

(** [open(p, 'w').write(d)]: fails on a directory, replaces a file. *)
Definition write_file (p d : pystr) : PyM unit :=
  fun fs =>
    if is_dir fs p then (inl (lit "[Errno 21] Is a directory: '" ++ p ++ lit "'"), fs)
    else (inr tt, {| fs_files := (p, d) :: filter (fun e => negb (str_eqb (fst e) p)) (fs_files fs);
                     fs_dirs := fs_dirs fs |}).

(** ** Returned dictionaries *)

Local Unset Elimination Schemes.
Inductive pyval :=
| VStr (s : pystr)
| VInt (n : nat)
| VDict (d : list (pystr * pyval)).

Local Set Elimination Schemes.

Definition pydict := list (pystr * pyval).

Fixpoint dict_get (d : pydict) (k : pystr) : option pyval :=
  match d with
  | [] => None
  | (k', v) :: d' => if str_eqb k' k then Some v else dict_get d' k
  end.

(** [try: ... except Exception as e: return {"status": "error", "message": str(e)}] *)
Definition try_except (m : PyM pydict) : FS -> pydict * FS :=
  fun fs =>
    match m fs with
    | (inr r, fs') => (r, fs')
    | (inl e, fs') => ([(lit "status", VStr (lit "error")); (lit "message", VStr e)], fs')
    end.

Section Operations.

(** [nbformat.read(f, as_version=4)]: the cells of a notebook file, or the
    message of the validation error; [nbformat.write]: the JSON text of a
    notebook. Both belong to the nbformat library. *)
Variable nbformat_read : pystr -> pystr + list cell.
Variable nbformat_write : list cell -> pystr.

Definition read_notebook (d : pystr) : PyM (list cell) :=
  fun fs => match nbformat_read d with
            | inl e => (inl e, fs)
            | inr cells => (inr cells, fs)
            end.

Definition nb_counts_dict (c : nb_counts) : pyval :=
  VDict [(lit "markdown", VInt (nc_markdown c)); (lit "code", VInt (nc_code c));
         (lit "raw", VInt (nc_raw c))].

Definition md_counts_dict (c : md_counts) : pyval :=
  VDict [(lit "markdown", VInt (cnt_markdown c)); (lit "code", VInt (cnt_code c))].

(** [convert_ipynb_to_md(source_path, output_dir)] (lines 10-85) *)
Definition convert_ipynb_to_md (source_path output_dir : pystr) : FS -> pydict * FS :=
  try_except (
    fs <- get_fs ;;
    when (negb (path_exists fs source_path))
      (raise (lit "Source file not found: " ++ source_path)) ;;;
    let suffix := path_suffix source_path in
    when (negb (str_eqb (lower suffix) (lit ".ipynb")))
      (raise (lit "Source file must be a .ipynb file, got: " ++ suffix)) ;;;
    mkdir output_dir ;;;
    let output_file := path_join output_dir (path_stem source_path ++ lit ".md") in
    data <- read_file source_path ;;
    cells <- read_notebook data ;;
    let '(text, cell_count) := cells_to_md cells in
    write_file output_file text ;;;
    ret [(lit "status", VStr (lit "success"));
         (lit "output_path", VStr output_file);
         (lit "cells_processed", nb_counts_dict cell_count);
         (lit "total_cells",
           VInt (nc_markdown cell_count + nc_code cell_count + nc_raw cell_count))]).

(** [convert_md_to_ipynb(source_path, output_dir)] (lines 87-202) *)
Definition convert_md_to_ipynb (source_path output_dir : pystr) : FS -> pydict * FS :=
  try_except (
    fs <- get_fs ;;
    when (negb (path_exists fs source_path))
      (raise (lit "Source file not found: " ++ source_path)) ;;;
    let suffix := path_suffix source_path in
    when (negb (str_eqb (lower suffix) (lit ".md") || str_eqb (lower suffix) (lit ".markdown")))
      (raise (lit "Source file must be a .md or .markdown file, got: " ++ suffix)) ;;;
    mkdir output_dir ;;;
    let output_file := path_join output_dir (path_stem source_path ++ lit ".ipynb") in
    content <- read_file source_path ;;
    let '(cells, cell_count) := md_to_cells content in
    write_file output_file (nbformat_write cells) ;;;
    ret [(lit "status", VStr (lit "success"));
         (lit "output_path", VStr output_file);
         (lit "cells_created", md_counts_dict cell_count);
         (lit "total_cells", VInt (cnt_markdown cell_count + cnt_code cell_count))]).

End Operations.

(** * Predicates used in the statements *)

(** Every text a parsed cell holds is stripped and non-empty. *)
Definition good_text (t : pystr) : Prop := strip t = t /\ t <> [].

Definition good_entries (l : list (kind * pystr)) : Prop :=
  Forall (fun kt => good_text (snd kt)) l.

Definition good_cell (c : cell) : Prop := good_text (cell_source c).

Definition not_raw (c : cell) : Prop := match c with Raw _ => False | _ => True end.

(** [sub in s]: an occurrence of [sub] starts somewhere in [s]. *)
Fixpoint occurs (sub s : pystr) : bool :=
  prefixb sub s || match s with [] => false | _ :: s' => occurs sub s' end.

(** The number of Code cells of a notebook. *)
Definition count_code (cells : list cell) : nat :=
  length (filter (fun c => match c with Code _ => true | _ => false end) cells).

(** [match.group(1)] of a fence whose tag is [tag]: [None] when it is empty. *)
Definition tag_group (tag : pystr) : option pystr :=
  match tag with [] => None | _ => Some tag end.

(** A fenced code block: opening fence, tag, newline, body, closing fence. *)
Definition fenced_block (tag body : pystr) : pystr := fence ++ tag ++ nl :: body ++ close_fence.

(** A text without a backtick. *)
Definition no_backtick (s : pystr) : Prop := Forall (fun c => Ascii.eqb c backtick = false) s.

(** The Markdown entry a gap text gives, if it is not blank. *)
Definition md_entry (t : pystr) : list (kind * pystr) :=
  if truthy (strip t) then [(K_markdown, strip t)] else [].

(** The Markdown cell a text gives, if it is not blank. *)
Definition md_part (t : pystr) : list cell :=
  if truthy (strip t) then [Markdown (strip t)] else [].

(** The code text of a fenced block, following the wording of the
    specification: prefixed with [# Language: <tag>] when the tag is present
    and is not [python] in any letter case. *)
Definition annotated_code (tag body : pystr) : pystr :=
  if truthy tag && negb (str_eqb (lower tag) (lit "python"))
  then lit "# Language: " ++ tag ++ [nl] ++ strip body
  else strip body.

(** The serialized Code cells after the first: each preceded by an empty line. *)
Definition code_doc_tail (rest : list pystr) : pystr :=
  concat (map (fun u => nl :: nl :: fenced_block (lit "python") u) rest).

(** No character of [g] occurs in [p]. *)
Definition disjointb (g p : pystr) : bool :=
  forallb (fun c => negb (existsb (Ascii.eqb c) p)) g.


(** The number of Markdown cells and of Raw cells of a notebook. *)
Definition count_markdown (cells : list cell) : nat :=
  length (filter (fun c => match c with Markdown _ => true | _ => false end) cells).

Definition count_raw (cells : list cell) : nat :=
  length (filter (fun c => match c with Raw _ => true | _ => false end) cells).

(** The cells one section of [content.split(CELL_BOUNDARY)] contributes
    (the body of the loop of lines 128-174). *)
Definition sec_cells (section : pystr) : list cell :=
  let section := strip section in
  if truthy section then map make_cell (process_section section) else [].

(** A blank line, the boundary marker line and a blank line. *)
Definition marker_sep : pystr := [nl; nl] ++ CELL_BOUNDARY ++ [nl; nl].

(** The serialized Markdown cells after the first: each preceded by
    [marker_sep]. *)
Definition md_doc_tail (rest : list pystr) : pystr :=
  concat (map (fun u => marker_sep ++ u) rest).

(** [{"status": "error", "message": m}] *)
Definition error_dict (m : pystr) : pydict :=
  [(lit "status", VStr (lit "error")); (lit "message", VStr m)].

(** ** [call_tool] of mcp_server.py (lines 63-85) *)

(** [arguments.get(k)]: the first entry for [k]. The input schema of both
    tools declares the two arguments as strings; an absent argument is
    [None], which [not source_path] treats like the empty string, and it
    never reaches a converter, so it is modelled as [""]. *)
Fixpoint arg_get (args : list (pystr * pystr)) (k : pystr) : pystr :=
  match args with
  | [] => []
  | (k', v) :: args' => if str_eqb k' k then v else arg_get args' k
  end.

(** Calling a converter from the [try] block: converters never raise, they
    return their own result dictionary. *)
Definition lift (m : FS -> pydict * FS) : PyM pydict :=
  fun fs => let '(r, fs') := m fs in (inr r, fs').

Section Server.

(** [json.dumps(_, indent=2)], from the Standard Library of Python; the
    [TextContent] items are modelled by their [text]. *)
Variable json_dumps : pydict -> pystr.
Variable nbformat_read : pystr -> pystr + list cell.
Variable nbformat_write : list cell -> pystr.

Definition call_tool_body (name : pystr) (args : list (pystr * pystr)) : PyM pydict :=
  let source_path := arg_get args (lit "source_path") in
  let output_dir := arg_get args (lit "output_dir") in
  when (negb (truthy source_path) || negb (truthy output_dir))
    (raise (lit "source_path and output_dir are required arguments.")) ;;;
  if str_eqb name (lit "convert_notebook") then
    lift (convert_ipynb_to_md nbformat_read source_path output_dir)
  else if str_eqb name (lit "convert_markdown") then
    lift (convert_md_to_ipynb nbformat_write source_path output_dir)
  else raise (lit "Unknown tool name: " ++ name).

Definition call_tool (name : pystr) (args : list (pystr * pystr)) : FS -> list pystr * FS :=
  fun fs =>
    match call_tool_body name args fs with
    | (inr result, fs') => ([json_dumps result], fs')
    | (inl e, fs') =>
        ([json_dumps (error_dict (lit "Error occurred during tool execution: " ++ e))], fs')
    end.

End Server.

(** Library stand-ins for concrete runs: a [json.dumps] and an nbformat
    reader that rejects its input. *)
Definition example_dumps (d : pydict) : pystr := lit "{}".
Definition example_bad_read (d : pystr) : pystr + list cell :=
  inl (lit "Notebook does not appear to be JSON").

(** * Properties *)

(** ** Strings: equality, [strip] *)

Lemma str_eqb_eq (a b : pystr) : str_eqb a b = true <-> a = b.
Proof.
  revert b; induction a as [|x a IH]; intros [|y b]; simpl; try (split; congruence).
  rewrite andb_true_iff, Ascii.eqb_eq, IH. split; [intros [-> ->]; reflexivity|].
  intros H; inversion H; auto.
Qed.

Lemma str_eqb_refl (a : pystr) : str_eqb a a = true.
Proof. apply str_eqb_eq; reflexivity. Qed.

Lemma lstrip_idem (s : pystr) : lstrip (lstrip s) = lstrip s.
Proof.
  induction s as [|c s IH]; simpl; auto.
  destruct (is_space c) eqn:E; auto. simpl. now rewrite E.
Qed.

Lemma lstrip_app_nonnil (u v : pystr) :
  lstrip u <> [] -> lstrip (u ++ v) = lstrip u ++ v.
Proof.
  induction u as [|c u IH]; simpl; intros H; [congruence|].
  destruct (is_space c); auto.
Qed.

Lemma lstrip_app_nil (u v : pystr) :
  lstrip u = [] -> lstrip (u ++ v) = lstrip v.
Proof.
  induction u as [|c u IH]; simpl; intros H; auto.
  destruct (is_space c); [auto|discriminate].
Qed.

Lemma lstrip_head (c : ascii) (s : pystr) :
  is_space c = false -> lstrip (c :: s) = c :: s.
Proof. intros H; simpl; now rewrite H. Qed.

(** [lstrip] removes a prefix of spaces, [rstrip] a suffix of spaces. *)
Lemma lstrip_suffix (s : pystr) :
  exists w, s = w ++ lstrip s /\ Forall (fun c => is_space c = true) w.
Proof.
  induction s as [|c s [w [Hw Hf]]]; simpl.
  - exists []; auto.
  - destruct (is_space c) eqn:E.
    + exists (c :: w). simpl. rewrite <- Hw. auto.
    + exists []. auto.
Qed.

Lemma rstrip_prefix (s : pystr) :
  exists w, s = rstrip s ++ w /\ Forall (fun c => is_space c = true) w.
Proof.
  destruct (lstrip_suffix (rev s)) as [w [Hw Hf]].
  exists (rev w). split.
  - unfold rstrip. rewrite <- rev_app_distr, <- Hw. now rewrite rev_involutive.
  - now apply Forall_rev.
Qed.

Lemma lstrip_length (s : pystr) : length (lstrip s) <= length s.
Proof.
  destruct (lstrip_suffix s) as [w [Hw _]].
  rewrite Hw at 2. rewrite length_app. lia.
Qed.

Lemma rstrip_length (s : pystr) : length (rstrip s) <= length s.
Proof.
  destruct (rstrip_prefix s) as [w [Hw _]].
  rewrite Hw at 2. rewrite length_app. lia.
Qed.

Lemma lstrip_same_length (s : pystr) : length (lstrip s) = length s -> lstrip s = s.
Proof.
  destruct (lstrip_suffix s) as [w [Hw _]]. intros H.
  rewrite Hw in H at 2. rewrite length_app in H.
  destruct w; [simpl in Hw; congruence|simpl in H; lia].
Qed.

Lemma rstrip_same_length (s : pystr) : length (rstrip s) = length s -> rstrip s = s.
Proof.
  destruct (rstrip_prefix s) as [w [Hw _]]. intros H.
  rewrite Hw in H at 2. rewrite length_app in H.
  destruct w; [rewrite app_nil_r in Hw; congruence|simpl in H; lia].
Qed.

(** A stripped text has no space at either end. *)
Lemma stripped_sides (s : pystr) :
  strip s = s -> lstrip s = s /\ rstrip s = s.
Proof.
  unfold strip. intros H.
  pose proof (rstrip_length (lstrip s)) as H1. pose proof (lstrip_length s) as H2.
  rewrite H in H1.
  assert (lstrip s = s) as E by (apply lstrip_same_length; lia).
  rewrite E in H. auto.
Qed.

Lemma rstrip_idem (s : pystr) : rstrip (rstrip s) = rstrip s.
Proof. unfold rstrip. now rewrite rev_involutive, lstrip_idem. Qed.

Lemma lstrip_rstrip (s : pystr) : lstrip s = s -> lstrip (rstrip s) = rstrip s.
Proof.
  intros Hs. destruct (rstrip_prefix s) as [w [Hw _]].
  destruct (rstrip s) as [|c r']; [reflexivity|].
  rewrite Hw in Hs. simpl in Hs |- *. destruct (is_space c) eqn:E; [|reflexivity].
  exfalso. pose proof (lstrip_length (r' ++ w)) as H. rewrite Hs in H. simpl in H. lia.
Qed.

Lemma strip_idem (s : pystr) : strip (strip s) = strip s.
Proof.
  unfold strip. rewrite lstrip_rstrip by apply lstrip_idem. apply rstrip_idem.
Qed.

Lemma rstrip_app_nonnil (u v : pystr) :
  rstrip v <> [] -> rstrip (u ++ v) = u ++ rstrip v.
Proof.
  unfold rstrip. intros H. rewrite rev_app_distr, lstrip_app_nonnil.
  - now rewrite rev_app_distr, rev_involutive.
  - intros E; apply H; now rewrite E.
Qed.

(** A text that starts with a non-space and ends with a non-empty stripped
    text is stripped. *)
Lemma strip_prefix_stripped (c : ascii) (u v : pystr) :
  is_space c = false -> strip v = v -> v <> [] -> strip (c :: u ++ v) = c :: u ++ v.
Proof.
  intros Hc Hv Hne. destruct (stripped_sides v Hv) as [_ Hr].
  unfold strip. rewrite lstrip_head by assumption.
  rewrite app_comm_cons, rstrip_app_nonnil; rewrite Hr; auto.
Qed.

Lemma strip_nil_iff (s : pystr) : strip s = [] <-> Forall (fun c => is_space c = true) s.
Proof.
  split.
  - intros H. destruct (lstrip_suffix s) as [w [Hw Hf]].
    destruct (rstrip_prefix (lstrip s)) as [w' [Hw' Hf']].
    unfold strip in H. rewrite H in Hw'. simpl in Hw'.
    rewrite Hw, Hw'. now apply Forall_app.
  - intros H. unfold strip. assert (lstrip s = []) as ->; [|reflexivity].
    induction H as [|c s Hc _ IH]; simpl; auto. now rewrite Hc.
Qed.

Lemma truthy_nonnil {A} (l : list A) : truthy l = true <-> l <> [].
Proof. destruct l; simpl; split; congruence. Qed.

(** ** Loop invariants of the parser *)

Lemma fold_left_invariant {A B} (f : A -> B -> A) (P : A -> Prop) (l : list B) (a : A) :
  P a -> (forall a b, P a -> P (f a b)) -> P (fold_left f l a).
Proof. revert a; induction l as [|b l IH]; simpl; auto. Qed.

Lemma good_text_strip (s : pystr) : truthy (strip s) = true -> good_text (strip s).
Proof. intros H. split; [apply strip_idem|now apply truthy_nonnil]. Qed.

Lemma good_text_annotated (language code : pystr) :
  good_text code -> good_text (lit "# Language: " ++ language ++ [nl] ++ code).
Proof.
  intros [Hs Hne]. split; [|simpl; congruence].
  assert (lit "# Language: " ++ language ++ [nl] ++ code
          = "#"%char :: (lit " Language: " ++ language ++ [nl]) ++ code) as ->.
  { simpl. now rewrite <- !app_assoc. }
  apply strip_prefix_stripped; auto.
Qed.

Lemma match_step_good (section : pystr) (st : nat * list (kind * pystr)) (m : rmatch) :
  good_entries (snd st) -> good_entries (snd (match_step section st m)).
Proof.
  destruct st as [last_end cells]. unfold match_step, good_entries. simpl. intros H.
  set (cells1 := if last_end <? m_start m then _ else cells).
  assert (Forall (fun kt => good_text (snd kt)) cells1) as H1.
  { subst cells1. destruct (last_end <? m_start m); auto.
    destruct (truthy (strip _)) eqn:E; auto.
    apply Forall_app; split; auto. constructor; auto. now apply good_text_strip. }
  destruct (truthy (strip (m_group2 m))) eqn:E; auto.
  apply Forall_app; split; auto. constructor; auto. simpl.
  destruct (negb _); [apply good_text_annotated|]; now apply good_text_strip.
Qed.

Lemma process_section_good (section : pystr) :
  strip section = section -> good_entries (process_section section).
Proof.
  intros Hsec. unfold process_section.
  pose proof (fold_left_invariant (match_step section) (fun st => good_entries (snd st))
                (finditer section) (0, []) (Forall_nil _)
                (fun a b H => match_step_good section a b H)) as Hf.
  destruct (fold_left (match_step section) (finditer section) (0, [])) as [last_end cells].
  simpl in Hf.
  set (cells1 := if last_end <? length section then _ else cells).
  assert (good_entries cells1) as H1.
  { subst cells1. destruct (last_end <? length section); auto.
    destruct (truthy (strip _)) eqn:E; auto.
    apply Forall_app; split; auto. constructor; auto. now apply good_text_strip. }
  destruct (negb (truthy cells1) && truthy section) eqn:E; auto.
  apply andb_true_iff in E as [_ E]. constructor; auto. split; auto. now apply truthy_nonnil.
Qed.

Lemma sections_loop_good (content : pystr) : Forall good_cell (fst (sections_loop content)).
Proof.
  unfold sections_loop.
  apply (fold_left_invariant _ (fun st => Forall good_cell (fst st))); [constructor|].
  intros [cells cnt] section H. simpl in H |- *.
  destruct (negb (truthy (strip section))) eqn:E; simpl; auto.
  apply Forall_app; split; auto.
  pose proof (process_section_good (strip section) (strip_idem section)) as Hp.
  apply Forall_map. eapply Forall_impl; [|exact Hp].
  intros [[|] t] Ht; exact Ht.
Qed.

Lemma sections_loop_not_raw (content : pystr) : Forall not_raw (fst (sections_loop content)).
Proof.
  unfold sections_loop.
  apply (fold_left_invariant _ (fun st => Forall not_raw (fst st))); [constructor|].
  intros [cells cnt] section H. simpl in H |- *.
  destruct (negb (truthy (strip section))); simpl; auto.
  apply Forall_app; split; auto.
  apply Forall_map, Forall_forall. intros [[|] t] _; exact I.
Qed.

(** ** C9 *)

(** C9: the parser only ever creates Markdown and Code cells: whatever the
    input text, no cell of the notebook built by [convert_md_to_ipynb] is a
    Raw cell. *)
Theorem parse_never_raw (content : pystr) : Forall not_raw (parse_cells content).
Proof.
  unfold parse_cells, md_to_cells.
  pose proof (sections_loop_not_raw content) as H.
  destruct (sections_loop content) as [cells cnt]. simpl in H.
  destruct cells; [|exact H].
  destruct (truthy (strip content)); repeat constructor.
Qed.

(** ** C10 *)

(** C10: every cell the parser creates holds a stripped, non-empty text,
    except the single empty Code cell that stands for a blank input: either
    all cells are stripped and non-empty, or the input is blank and the
    notebook is exactly one empty Code cell. *)
Theorem parse_cells_stripped (content : pystr) :
  Forall good_cell (parse_cells content)
  \/ (strip content = [] /\ parse_cells content = [Code []]).
Proof.
  unfold parse_cells, md_to_cells.
  pose proof (sections_loop_good content) as H.
  destruct (sections_loop content) as [cells cnt]. simpl in H.
  destruct cells; [|left; exact H].
  destruct (truthy (strip content)) eqn:E.
  - left. constructor; auto. now apply good_text_strip.
  - right. destruct (strip content); [auto|discriminate].
Qed.

(** ** Occurrences, [split] and [finditer] on texts without a given infix *)

Lemma prefixb_app (p s t : pystr) : prefixb p s = true -> prefixb p (s ++ t) = true.
Proof.
  revert s; induction p as [|x p IH]; intros [|y s]; simpl; auto; try discriminate.
  rewrite !andb_true_iff. intros [H1 H2]; auto.
Qed.

Lemma occurs_app_l (p x y : pystr) : occurs p x = true -> occurs p (x ++ y) = true.
Proof.
  induction x as [|c x IH]; simpl.
  { destruct p; simpl; [destruct y; reflexivity|discriminate]. }
  rewrite !orb_true_iff. intros [H|H]; [left|right]; auto.
  change (c :: x ++ y) with ((c :: x) ++ y). now apply prefixb_app.
Qed.

Lemma occurs_app_r (p x y : pystr) : occurs p y = true -> occurs p (x ++ y) = true.
Proof.
  induction x as [|c x IH]; simpl; auto. intros H. rewrite IH by auto. apply orb_true_r.
Qed.

Lemma occurs_app_false (p x y : pystr) :
  occurs p (x ++ y) = false -> occurs p x = false /\ occurs p y = false.
Proof.
  intros H. split; apply not_true_iff_false; intros E; rewrite <- not_true_iff_false in H;
    apply H; [now apply occurs_app_l|now apply occurs_app_r].
Qed.

Lemma occurs_cons_false (p : pystr) (c : ascii) (s : pystr) :
  occurs p (c :: s) = false -> prefixb p (c :: s) = false /\ occurs p s = false.
Proof. simpl. now rewrite orb_false_iff. Qed.

(** [strip s] is an infix of [s]. *)
Lemma strip_infix (s : pystr) : exists w w', s = w ++ strip s ++ w'.
Proof.
  destruct (lstrip_suffix s) as [w [Hw _]].
  destruct (rstrip_prefix (lstrip s)) as [w' [Hw' _]].
  exists w, w'. unfold strip. rewrite <- Hw'. exact Hw.
Qed.

Lemma occurs_strip_false (p s : pystr) : occurs p s = false -> occurs p (strip s) = false.
Proof.
  destruct (strip_infix s) as [w [w' E]]. rewrite E at 1. intros H.
  apply occurs_app_false in H as [_ H]. apply occurs_app_false in H as [H _]. exact H.
Qed.

Lemma split_go_no_occurrence (sep s cur : pystr) :
  occurs sep s = false -> split_go sep s 0 cur = [rev cur ++ s].
Proof.
  revert cur; induction s as [|c s IH]; intros cur H; simpl.
  - now rewrite app_nil_r.
  - apply occurs_cons_false in H as [H1 H2]. rewrite H1, IH by exact H2.
    simpl. now rewrite <- app_assoc.
Qed.

Lemma split_no_occurrence (s sep : pystr) : occurs sep s = false -> split s sep = [s].
Proof. intros H. unfold split. now rewrite split_go_no_occurrence. Qed.

Lemma finditer_go_no_fence (t : pystr) (pos : nat) :
  occurs fence t = false -> finditer_go t 0 pos = [].
Proof.
  revert pos; induction t as [|c t IH]; intros pos H; simpl; auto.
  pose proof H as H'. apply occurs_cons_false in H' as [H1 H2].
  unfold match_at. rewrite H1. now apply IH.
Qed.

Lemma blank_no_boundary (s : pystr) :
  Forall (fun c => is_space c = true) s -> occurs CELL_BOUNDARY s = false.
Proof.
  induction 1 as [|c s Hc _ IH]; [reflexivity|].
  assert (prefixb CELL_BOUNDARY (c :: s) = false) as Hp.
  { change (prefixb CELL_BOUNDARY (c :: s))
      with (Ascii.eqb "<"%char c && prefixb (tl CELL_BOUNDARY) s).
    destruct (Ascii.eqb "<"%char c) eqn:E; [|reflexivity].
    apply Ascii.eqb_eq in E. subst c. discriminate. }
  change (occurs CELL_BOUNDARY (c :: s))
    with (prefixb CELL_BOUNDARY (c :: s) || occurs CELL_BOUNDARY s).
  now rewrite Hp, IH.
Qed.

(** The parser on one stripped, non-empty section without a fence. *)
Lemma process_section_no_fence (section : pystr) :
  occurs fence section = false -> strip section = section -> section <> [] ->
  process_section section = [(K_markdown, section)].
Proof.
  intros Hf Hs Hne. unfold process_section, finditer.
  rewrite finditer_go_no_fence by exact Hf. simpl.
  destruct section as [|c section]; [congruence|]. simpl.
  rewrite Hs. reflexivity.
Qed.

(** ** C6 *)

(** C6 (as amended): an input text without a triple-backtick fence and
    without the cell boundary marker, and not blank, becomes exactly one
    Markdown cell holding the whole text stripped. *)
Theorem no_fence_single_markdown (content : pystr) :
  occurs fence content = false ->
  occurs CELL_BOUNDARY content = false ->
  strip content <> [] ->
  parse_cells content = [Markdown (strip content)].
Proof.
  intros Hf Hb Hne. unfold parse_cells, md_to_cells, sections_loop.
  rewrite split_no_occurrence by exact Hb. simpl.
  destruct (strip content) as [|c s] eqn:E; [congruence|]. simpl.
  rewrite <- E, process_section_no_fence.
  - reflexivity.
  - now apply occurs_strip_false.
  - apply strip_idem.
  - rewrite E; exact Hne.
Qed.

Lemma no_fence_single_markdown_witness :
  occurs fence (lit " # Title ") = false /\
  occurs CELL_BOUNDARY (lit " # Title ") = false /\
  strip (lit " # Title ") <> [] /\
  parse_cells (lit " # Title ") = [Markdown (lit "# Title")].
Proof.
  split; [reflexivity|]. split; [reflexivity|]. split; [discriminate|].
  apply (no_fence_single_markdown (lit " # Title ")); [reflexivity|reflexivity|discriminate].
Defined.

(** C6 fails as stated: a text without a fence that holds the boundary
    marker gives two Markdown cells, and a blank text gives a Code cell. *)
Lemma no_fence_single_markdown_counterexample :
  occurs fence (lit "A<!-- NOTEBOOK_CELL_BOUNDARY -->B") = false /\
  parse_cells (lit "A<!-- NOTEBOOK_CELL_BOUNDARY -->B") = [Markdown (lit "A"); Markdown (lit "B")] /\
  occurs fence (lit " ") = false /\
  parse_cells (lit " ") = [Code []].
Proof. repeat split; vm_compute; reflexivity. Qed.

(** ** The two operations: what a successful call returns *)

Ltac split_matches H :=
  repeat match type of H with
  | context [match ?x with _ => _ end] =>
      let E := fresh "E" in destruct x eqn:E
  end.

Lemma error_dict_status (m : pystr) (r : pydict) :
  r = [(lit "status", VStr (lit "error")); (lit "message", VStr m)] ->
  dict_get r (lit "status") = Some (VStr (lit "error")).
Proof. intros ->. reflexivity. Qed.

Ltac run_op H :=
  repeat (match type of H with
  | context [if ?b then _ else _] => let E := fresh "E" in destruct b eqn:E
  | context [match lookup_file ?f ?p with _ => _ end] =>
      let E := fresh "E" in destruct (lookup_file f p) eqn:E
  | context [match md_to_cells ?c with _ => _ end] =>
      let E := fresh "E" in destruct (md_to_cells c) eqn:E
  | context [match cells_to_md ?c with _ => _ end] =>
      let E := fresh "E" in destruct (cells_to_md c) eqn:E
  | context [match ?f ?d with inl _ => _ | inr _ => _ end] =>
      let E := fresh "E" in destruct (f d) eqn:E
  end; simpl in H).

Ltac unfold_op :=
  unfold convert_md_to_ipynb, convert_ipynb_to_md, try_except, bind, get_fs, when, raise,
    ret, mkdir, read_file, read_notebook, write_file.

Lemma convert_md_to_ipynb_success nbformat_write source_path output_dir fs r fs' :
  convert_md_to_ipynb nbformat_write source_path output_dir fs = (r, fs') ->
  dict_get r (lit "status") = Some (VStr (lit "success")) ->
  exists content output_file,
    lookup_file fs source_path = Some content /\
    r = [(lit "status", VStr (lit "success"));
         (lit "output_path", VStr output_file);
         (lit "cells_created", md_counts_dict (snd (md_to_cells (univ_newlines content))));
         (lit "total_cells", VInt (cnt_markdown (snd (md_to_cells (univ_newlines content)))
                                   + cnt_code (snd (md_to_cells (univ_newlines content)))))].
Proof.
  unfold_op. intros H Hs. simpl in H. run_op H.
  all: inversion H; subst; clear H; try discriminate.
  all: do 2 eexists; split; [eassumption || reflexivity|].
  all: match goal with Hm : md_to_cells _ = _ |- _ => rewrite Hm end; reflexivity.
Qed.

Lemma convert_ipynb_to_md_success nbformat_read source_path output_dir fs r fs' :
  convert_ipynb_to_md nbformat_read source_path output_dir fs = (r, fs') ->
  dict_get r (lit "status") = Some (VStr (lit "success")) ->
  exists data cells output_file,
    lookup_file fs source_path = Some data /\
    nbformat_read (univ_newlines data) = inr cells /\
    r = [(lit "status", VStr (lit "success"));
         (lit "output_path", VStr output_file);
         (lit "cells_processed", nb_counts_dict (snd (cells_to_md cells)));
         (lit "total_cells", VInt (nc_markdown (snd (cells_to_md cells))
                                   + nc_code (snd (cells_to_md cells))
                                   + nc_raw (snd (cells_to_md cells))))].
Proof.
  unfold_op. intros H Hs. simpl in H. run_op H.
  all: inversion H; subst; clear H; try discriminate.
  all: do 3 eexists; split; [eassumption || reflexivity|]; split; [eassumption|].
  all: match goal with Hm : cells_to_md _ = _ |- _ => rewrite Hm end; reflexivity.
Qed.

(** ** Paths ending in [.txt] *)

Lemma split_char_no_sep (c : ascii) (r : pystr) :
  Forall (fun x => Ascii.eqb x c = false) r -> split_char c r = [r].
Proof.
  induction 1 as [|x r Hx _ IH]; [reflexivity|]. simpl. now rewrite Hx, IH.
Qed.

Lemma split_char_nonnil (c : ascii) (s : pystr) : split_char c s <> [].
Proof.
  destruct s as [|x s]; simpl; [discriminate|].
  destruct (Ascii.eqb x c); [discriminate|]. destruct (split_char c s); discriminate.
Qed.

Lemma split_char_app (c : ascii) (q r : pystr) :
  Forall (fun x => Ascii.eqb x c = false) r ->
  split_char c (q ++ r) = removelast (split_char c q) ++ [last (split_char c q) [] ++ r].
Proof.
  intros Hr. induction q as [|x q IH]; simpl.
  - now apply split_char_no_sep.
  - rewrite IH. pose proof (split_char_nonnil c q) as Hn.
    destruct (split_char c q) as [|h t] eqn:Es; [congruence|].
    destruct (Ascii.eqb x c).
    + reflexivity.
    + destruct t as [|h' t]; reflexivity.
Qed.

Lemma path_name_ext (q e : pystr) :
  Forall (fun x => Ascii.eqb x slash = false) e ->
  truthy e = true -> str_eqb e [dot] = false ->
  exists w, path_name (q ++ e) = w ++ e.
Proof.
  intros Hs Ht Hd. unfold path_name, path_parts. rewrite split_char_app by exact Hs.
  exists (last (split_char slash q) []).
  rewrite filter_app.
  destruct (last (split_char slash q) []) as [|x w] eqn:El.
  - simpl. rewrite Ht, Hd. simpl. now rewrite last_last.
  - assert (str_eqb (x :: w ++ e) [dot] = false) as Hx.
    { simpl. destruct (w ++ e) eqn:We; [|apply andb_false_r].
      apply app_eq_nil in We as [_ ->]. discriminate. }
    cbn [app filter]. rewrite Hx. simpl. now rewrite last_last.
Qed.

Lemma last_app_nonnil {A} (a b : list A) (d : A) : b <> [] -> last (a ++ b) d = last b d.
Proof.
  intros Hb. induction a as [|x a IH]; [reflexivity|].
  simpl. rewrite IH. destruct (a ++ b) eqn:E; [|reflexivity].
  apply app_eq_nil in E as [_ E]. congruence.
Qed.

Lemma last_map_nonnil {A B} (f : A -> B) (l : list A) (d : A) (d' : B) :
  l <> [] -> last (map f l) d' = f (last l d).
Proof.
  induction l as [|x l IH]; intros H; [congruence|].
  destruct l as [|y l]; [reflexivity|]. simpl map. simpl in IH |- *. apply IH. discriminate.
Qed.

Lemma txt_suffix_not_ipynb (q : pystr) :
  str_eqb (lower (path_suffix (q ++ lit ".txt"))) (lit ".ipynb") = false.
Proof.
  unfold path_suffix.
  destruct (path_name_ext q (lit ".txt")) as [w Hw];
    [repeat constructor|reflexivity|reflexivity|].
  rewrite Hw. destruct (suffix_index (w ++ lit ".txt")) as [i|] eqn:Ei; [|reflexivity].
  apply not_true_iff_false. intros E. apply str_eqb_eq in E.
  assert (skipn i (w ++ lit ".txt") <> []) as Hne.
  { unfold suffix_index in Ei. destruct (rfind dot _); [|discriminate].
    destruct (_ && _) eqn:Eb; [|discriminate]. injection Ei as <-.
    apply andb_true_iff in Eb as [_ Eb]. apply Nat.ltb_lt in Eb.
    intros Hs. pose proof (length_skipn n (w ++ lit ".txt")) as Hl.
    rewrite Hs in Hl. rewrite length_app in Hl, Eb. simpl in Hl, Eb. lia. }
  assert (last (skipn i (w ++ lit ".txt")) " "%char = "t"%char) as Hl.
  { assert (last (w ++ lit ".txt") " "%char = "t"%char) as Ht.
    { rewrite last_app_nonnil by discriminate. reflexivity. }
    rewrite <- (firstn_skipn i (w ++ lit ".txt")) in Ht.
    rewrite last_app_nonnil in Ht by exact Hne. exact Ht. }
  pose proof (f_equal (fun l => last l " "%char) E) as E'. cbv beta in E'.
  unfold lower in E'. rewrite last_map_nonnil with (d := " "%char) in E' by exact Hne.
  rewrite Hl in E'. vm_compute in E'. discriminate.
Qed.

(** ** C8 *)

(** C8: asking [convert_ipynb_to_md] to convert a path ending in [.txt]
    returns a result with status "error" and leaves the file system as it
    was: no output file is written, no directory created. *)
Theorem txt_source_rejected (nbformat_read : pystr -> pystr + list cell)
  (q output_dir : pystr) (fs : FS) :
  dict_get (fst (convert_ipynb_to_md nbformat_read (q ++ lit ".txt") output_dir fs))
    (lit "status") = Some (VStr (lit "error"))
  /\ snd (convert_ipynb_to_md nbformat_read (q ++ lit ".txt") output_dir fs) = fs.
Proof.
  unfold_op. rewrite txt_suffix_not_ipynb.
  destruct (path_exists fs (q ++ lit ".txt")); simpl; split; reflexivity.
Qed.

(** ** C7 *)

Lemma sections_loop_blank (content : pystr) :
  strip content = [] -> sections_loop content = ([], {| cnt_markdown := 0; cnt_code := 0 |}).
Proof.
  intros H. pose proof H as Hf. apply strip_nil_iff in Hf.
  unfold sections_loop. rewrite split_no_occurrence by now apply blank_no_boundary.
  simpl. now rewrite H.
Qed.

Lemma univ_newlines_spaces (s : pystr) :
  Forall (fun c => is_space c = true) s ->
  Forall (fun c => is_space c = true) (univ_newlines s).
Proof.
  remember (length s) as n eqn:En. revert s En.
  induction n as [n IH] using lt_wf_ind. intros s -> H.
  destruct s as [|c s']; [constructor|].
  inversion H as [|? ? Hc Hs]; subst. cbn [univ_newlines].
  destruct (Ascii.eqb c cr).
  - constructor; [reflexivity|]. destruct s' as [|d s'']; [constructor|].
    destruct (Ascii.eqb d nl).
    + inversion Hs; subst. apply (IH (length s'')); [simpl; lia|reflexivity|assumption].
    + apply (IH (length (d :: s''))); [simpl; lia|reflexivity|assumption].
  - constructor; [assumption|]. apply (IH (length s')); [simpl; lia|reflexivity|assumption].
Qed.

Lemma strip_univ_newlines_blank (s : pystr) :
  strip s = [] -> strip (univ_newlines s) = [].
Proof. rewrite !strip_nil_iff. apply univ_newlines_spaces. Qed.

(** C7: an empty or whitespace-only text becomes exactly one Code cell with
    empty text; a successful [convert_md_to_ipynb] of a file holding such a
    text reports [total_cells] equal to 1. *)
Theorem blank_input_placeholder (content : pystr) :
  strip content = [] ->
  parse_cells content = [Code []] /\
  (forall nbformat_write source_path output_dir fs r fs',
     lookup_file fs source_path = Some content ->
     convert_md_to_ipynb nbformat_write source_path output_dir fs = (r, fs') ->
     dict_get r (lit "status") = Some (VStr (lit "success")) ->
     dict_get r (lit "total_cells") = Some (VInt 1)).
Proof.
  intros H.
  assert (Hm : forall t, strip t = [] ->
            md_to_cells t = ([Code []], {| cnt_markdown := 0; cnt_code := 1 |})).
  { intros t Ht. unfold md_to_cells. rewrite sections_loop_blank by exact Ht. now rewrite Ht. }
  split; [unfold parse_cells; now rewrite Hm|].
  intros w src dst fs r fs' Hl Hc Hs.
  destruct (convert_md_to_ipynb_success w src dst fs r fs' Hc Hs) as [c [o [Hl' ->]]].
  rewrite Hl in Hl'. injection Hl' as <-.
  rewrite (Hm _ (strip_univ_newlines_blank _ H)). reflexivity.
Qed.

Definition example_fs : FS :=
  {| fs_files := [(lit "/work/notes.md", lit "  ");
                  (lit "/work/book.ipynb", lit "{}")];
     fs_dirs := [lit "/work"] |}.

Definition example_write (cells : list cell) : pystr := lit "{}".
Definition example_read (d : pystr) : pystr + list cell := inr [Code (lit "x = 1")].

Lemma blank_input_placeholder_witness :
  strip (lit "  ") = [] /\ parse_cells (lit "  ") = [Code []] /\
  dict_get (fst (convert_md_to_ipynb example_write (lit "/work/notes.md") (lit "/out")
                   example_fs)) (lit "total_cells") = Some (VInt 1).
Proof.
  split; [reflexivity|].
  destruct (blank_input_placeholder (lit "  ") eq_refl) as [H1 H2].
  split; [exact H1|].
  apply (H2 example_write (lit "/work/notes.md") (lit "/out") example_fs _
           (snd (convert_md_to_ipynb example_write (lit "/work/notes.md") (lit "/out")
                   example_fs))).
  - reflexivity.
  - apply surjective_pairing.
  - vm_compute. reflexivity.
Defined.

(** ** C3 *)

(** C3 (as amended): every successful conversion returns the dictionary
    [{"status": "success", "output_path": <str>, <counts>: {kind: int},
    "total_cells": <int>}] where the per-kind counts are under
    "cells_created" with the kinds markdown and code for
    [convert_md_to_ipynb], under "cells_processed" with the kinds markdown,
    code and raw for [convert_ipynb_to_md], and [total_cells] is their sum. *)
Theorem conversion_result_contract :
  (forall nbformat_write source_path output_dir fs r fs',
     convert_md_to_ipynb nbformat_write source_path output_dir fs = (r, fs') ->
     dict_get r (lit "status") = Some (VStr (lit "success")) ->
     exists output_file m c,
       r = [(lit "status", VStr (lit "success"));
            (lit "output_path", VStr output_file);
            (lit "cells_created", VDict [(lit "markdown", VInt m); (lit "code", VInt c)]);
            (lit "total_cells", VInt (m + c))])
  /\
  (forall nbformat_read source_path output_dir fs r fs',
     convert_ipynb_to_md nbformat_read source_path output_dir fs = (r, fs') ->
     dict_get r (lit "status") = Some (VStr (lit "success")) ->
     exists output_file m c w,
       r = [(lit "status", VStr (lit "success"));
            (lit "output_path", VStr output_file);
            (lit "cells_processed",
              VDict [(lit "markdown", VInt m); (lit "code", VInt c); (lit "raw", VInt w)]);
            (lit "total_cells", VInt (m + c + w))]).
Proof.
  split.
  - intros w src dst fs r fs' Hc Hs.
    destruct (convert_md_to_ipynb_success w src dst fs r fs' Hc Hs) as [c [o [_ ->]]].
    now do 3 eexists.
  - intros rd src dst fs r fs' Hc Hs.
    destruct (convert_ipynb_to_md_success rd src dst fs r fs' Hc Hs) as [d [c [o [_ [_ ->]]]]].
    now do 4 eexists.
Qed.

Lemma conversion_result_contract_witness :
  exists o1 m1 c1 o2 m2 c2 w2,
    fst (convert_md_to_ipynb example_write (lit "/work/notes.md") (lit "/out") example_fs)
    = [(lit "status", VStr (lit "success")); (lit "output_path", VStr o1);
       (lit "cells_created", VDict [(lit "markdown", VInt m1); (lit "code", VInt c1)]);
       (lit "total_cells", VInt (m1 + c1))]
    /\
    fst (convert_ipynb_to_md example_read (lit "/work/book.ipynb") (lit "/out") example_fs)
    = [(lit "status", VStr (lit "success")); (lit "output_path", VStr o2);
       (lit "cells_processed",
         VDict [(lit "markdown", VInt m2); (lit "code", VInt c2); (lit "raw", VInt w2)]);
       (lit "total_cells", VInt (m2 + c2 + w2))].
Proof.
  destruct conversion_result_contract as [Hmd Hnb].
  destruct (Hmd example_write (lit "/work/notes.md") (lit "/out") example_fs _ _
              (surjective_pairing _) eq_refl) as [o1 [m1 [c1 E1]]].
  destruct (Hnb example_read (lit "/work/book.ipynb") (lit "/out") example_fs _ _
              (surjective_pairing _) eq_refl) as [o2 [m2 [c2 [w2 E2]]]].
  exists o1, m1, c1, o2, m2, c2, w2. split; assumption.
Defined.

(** C3 fails as stated: a successful conversion in either direction
    returns no field named "cell_counts". *)
Lemma conversion_result_contract_counterexample :
  dict_get (fst (convert_md_to_ipynb example_write (lit "/work/notes.md") (lit "/out")
                   example_fs)) (lit "status") = Some (VStr (lit "success")) /\
  dict_get (fst (convert_md_to_ipynb example_write (lit "/work/notes.md") (lit "/out")
                   example_fs)) (lit "cell_counts") = None /\
  dict_get (fst (convert_ipynb_to_md example_read (lit "/work/book.ipynb") (lit "/out")
                   example_fs)) (lit "status") = Some (VStr (lit "success")) /\
  dict_get (fst (convert_ipynb_to_md example_read (lit "/work/book.ipynb") (lit "/out")
                   example_fs)) (lit "cell_counts") = None.
Proof. repeat split; vm_compute; reflexivity. Qed.

(** ** C2 *)

(** C2: the notebook [Markdown "A"; Markdown "B"] is written as "A", a
    blank line, the boundary marker line, a blank line and "B"; parsing that
    text gives back two separate Markdown cells "A" and "B". *)
Theorem boundary_between_markdown_cells :
  serialize [Markdown (lit "A"); Markdown (lit "B")]
  = lit "A" ++ [nl; nl] ++ CELL_BOUNDARY ++ [nl; nl] ++ lit "B"
  /\ parse_cells (serialize [Markdown (lit "A"); Markdown (lit "B")])
     = [Markdown (lit "A"); Markdown (lit "B")].
Proof. split; vm_compute; reflexivity. Qed.

(** ** C5 *)

Lemma ser_step_code_count (cells : list cell) (st : list pystr * nb_counts) (i : nat) (c : cell) :
  nc_code (snd (ser_step cells st i c))
  = nc_code (snd st) + match c with Code _ => 1 | _ => 0 end.
Proof. destruct st as [content cnt]; destruct c; simpl; lia. Qed.

Lemma ser_loop_code_count (cells : list cell) (i : nat) (l : list cell)
  (st : list pystr * nb_counts) :
  nc_code (snd (ser_loop cells i l st)) = nc_code (snd st) + count_code l.
Proof.
  revert i st; induction l as [|c l IH]; intros i st; simpl; [unfold count_code; simpl; lia|].
  rewrite IH, ser_step_code_count. unfold count_code. destruct c; simpl; lia.
Qed.

Lemma count_code_app (l1 l2 : list cell) : count_code (l1 ++ l2) = count_code l1 + count_code l2.
Proof. unfold count_code. now rewrite filter_app, length_app. Qed.

(** C5: the loop iteration for a Code cell whose text is blank appends
    nothing to the Markdown lines (no fenced block) and still counts the
    cell: the code count of the result is the number of all Code cells,
    the blank one included. *)
Theorem blank_code_cell_counted (pre post : list cell) (t : pystr)
  (st : list pystr * nb_counts) :
  strip t = [] ->
  ser_step (pre ++ Code t :: post) st (length pre) (Code t)
  = (fst st, {| nc_markdown := nc_markdown (snd st); nc_code := S (nc_code (snd st));
                nc_raw := nc_raw (snd st) |})
  /\ nc_code (snd (cells_to_md (pre ++ Code t :: post)))
     = S (count_code pre + count_code post).
Proof.
  intros H. split.
  - destruct st as [content cnt]. simpl. now rewrite H.
  - unfold cells_to_md.
    pose proof (ser_loop_code_count (pre ++ Code t :: post) 0 (pre ++ Code t :: post)
                  ([], nb_counts0)) as Hc.
    destruct (ser_loop _ 0 _ _) as [content cnt]. simpl in Hc |- *.
    rewrite Hc, count_code_app. unfold count_code. simpl. lia.
Qed.

Lemma blank_code_cell_counted_witness :
  strip (lit "   ") = [] /\
  ser_step [Code (lit "   ")] ([], nb_counts0) 0 (Code (lit "   "))
  = ([], {| nc_markdown := 0; nc_code := 1; nc_raw := 0 |}) /\
  nc_code (snd (cells_to_md [Code (lit "   ")])) = 1 /\
  serialize [Code (lit "   ")] = [].
Proof.
  split; [reflexivity|].
  destruct (blank_code_cell_counted [] [] (lit "   ") ([], nb_counts0) eq_refl) as [H1 H2].
  split; [exact H1|]. split; [exact H2|]. vm_compute. reflexivity.
Defined.

(** ** The fence pattern on a well-formed block *)

Lemma prefixb_long (p s x : pystr) :
  length p <= length s -> prefixb p (s ++ x) = prefixb p s.
Proof.
  revert s; induction p as [|a p IH]; intros [|b s] H; simpl in *; try lia; auto.
  rewrite IH by lia. reflexivity.
Qed.

(** A closing fence cannot start inside a text and end inside the closing
    fence that follows it: the newline of [\n```] only occurs first. *)
Lemma prefixb_close_straddle (s rest : pystr) :
  s <> [] -> length s < 4 -> prefixb close_fence (s ++ close_fence ++ rest) = false.
Proof.
  intros Hne Hl.
  destruct s as [|a [|b [|c [|d s]]]]; simpl in Hl; try lia; try congruence;
    cbn [app]; unfold close_fence, fence; cbn [lit list_ascii_of_string prefixb].
  - destruct (Ascii.eqb nl a); reflexivity.
  - destruct (Ascii.eqb nl a), (Ascii.eqb "`"%char b); reflexivity.
  - destruct (Ascii.eqb nl a), (Ascii.eqb "`"%char b), (Ascii.eqb "`"%char c); reflexivity.
Qed.

Lemma lazy_body_unfold (t : pystr) :
  lazy_body t =
  if prefixb close_fence t then Some ([], skipn 4 t)
  else match t with
       | [] => None
       | c :: t' => match lazy_body t' with Some (b, r) => Some (c :: b, r) | None => None end
       end.
Proof. destruct t; reflexivity. Qed.

(** [(.*?)\n```] stops at the first closing fence. *)
Lemma lazy_body_close (b rest : pystr) :
  occurs close_fence b = false -> lazy_body (b ++ close_fence ++ rest) = Some (b, rest).
Proof.
  induction b as [|c b IH]; intros H.
  - rewrite lazy_body_unfold. reflexivity.
  - rewrite lazy_body_unfold. pose proof H as H'. apply occurs_cons_false in H' as [H1 H2].
    assert (prefixb close_fence ((c :: b) ++ close_fence ++ rest) = false) as ->.
    { destruct (Nat.lt_ge_cases (length (c :: b)) 4) as [Hl|Hl].
      - apply prefixb_close_straddle; [discriminate|exact Hl].
      - rewrite prefixb_long by exact Hl. exact H1. }
    change ((c :: b) ++ close_fence ++ rest) with (c :: (b ++ close_fence ++ rest)).
    cbv beta iota. rewrite IH by exact H2. reflexivity.
Qed.

Lemma ws_run_app (body x : pystr) :
  strip body <> [] -> ws_run (body ++ x) = ws_run body /\ ws_run body < length body.
Proof.
  induction body as [|c body IH]; intros H; [now contradiction H|].
  simpl. destruct (is_space c) eqn:E.
  - assert (strip body <> []) as H'.
    { unfold strip in H |- *. simpl in H. now rewrite E in H. }
    destruct (IH H') as [-> Hl]. split; [reflexivity|lia].
  - split; [reflexivity|lia].
Qed.

Lemma firstn_ws_run (s : pystr) (j : nat) :
  j <= ws_run s -> Forall (fun c => is_space c = true) (firstn j s).
Proof.
  revert j; induction s as [|c s IH]; intros j Hj; [destruct j; constructor|].
  destruct j as [|j]; [constructor|]. simpl in Hj |- *.
  destruct (is_space c) eqn:E; [|lia]. constructor; [exact E|]. apply IH. lia.
Qed.

Lemma skipn_cons_nth (l : pystr) (n : nat) :
  n < length l -> exists x, skipn n l = x :: skipn (S n) l.
Proof.
  revert n; induction l as [|x l IH]; intros n H; simpl in H; [lia|].
  destruct n as [|n]; [exists x; reflexivity|]. simpl. apply IH. lia.
Qed.

Lemma occurs_skipn_false (p s : pystr) (n : nat) :
  occurs p s = false -> occurs p (skipn n s) = false.
Proof.
  rewrite <- (firstn_skipn n s) at 1. intros H. now apply occurs_app_false in H as [_ H].
Qed.

Lemma skipn_ws_run (s u : pystr) (x : ascii) :
  skipn (ws_run s) s = x :: u -> is_space x = false.
Proof.
  revert u; induction s as [|c s IH]; intros u H; simpl in H; [discriminate|].
  destruct (is_space c) eqn:E; [exact (IH u H)|]. injection H as <- _. exact E.
Qed.

Lemma try_ws_unfold (t : pystr) (slen : nat) :
  try_ws t slen =
  match match skipn slen t with
        | c :: u => if Ascii.eqb c nl then lazy_body u else None
        | [] => None
        end with
  | Some r => Some r
  | None => match slen with 0 => None | S k => try_ws t k end
  end.
Proof. destruct slen; reflexivity. Qed.

(** [\s*\n] backtracks to a newline among the leading spaces of the body;
    the body found differs from the written one only by leading spaces. *)
Lemma try_ws_block (body rest : pystr) (k : nat) :
  strip body <> [] -> occurs close_fence body = false ->
  k <= S (ws_run body) ->
  exists j, j <= ws_run body /\
    try_ws (nl :: body ++ close_fence ++ rest) k = Some (skipn j body, rest).
Proof.
  intros Hb Hc. destruct (ws_run_app body (close_fence ++ rest) Hb) as [_ Hlt].
  induction k as [|k IH]; intros Hk.
  - exists 0. split; [lia|]. rewrite try_ws_unfold. cbn [skipn].
    rewrite Ascii.eqb_refl, lazy_body_close by exact Hc. reflexivity.
  - rewrite try_ws_unfold. cbn [skipn]. rewrite skipn_app.
    replace (k - length body) with 0 by lia. cbn [skipn].
    destruct (skipn_cons_nth body k) as [x Hx]; [lia|]. rewrite Hx. cbn [app].
    destruct (Ascii.eqb x nl) eqn:Ex.
    + rewrite lazy_body_close by now apply occurs_skipn_false.
      exists (S k). split; [|reflexivity].
      destruct (Nat.eq_dec k (ws_run body)) as [->|]; [|lia].
      apply skipn_ws_run in Hx. apply Ascii.eqb_eq in Ex. subst x. discriminate.
    + apply IH. lia.
Qed.

Lemma skipn_app_length (a b : pystr) : skipn (length a) (a ++ b) = b.
Proof. induction a; simpl; auto. Qed.

Lemma firstn_app_length (a b : pystr) : firstn (length a) (a ++ b) = a.
Proof. induction a; simpl; f_equal; auto. Qed.

Lemma word_run_tag (tag x : pystr) :
  Forall (fun c => is_word c = true) tag -> word_run (tag ++ nl :: x) = length tag.
Proof. induction 1 as [|c tag Hc _ IH]; [reflexivity|]. simpl. now rewrite Hc, IH. Qed.

Lemma ws_then_body_block (body rest : pystr) :
  strip body <> [] -> occurs close_fence body = false ->
  exists j, j <= ws_run body /\
    ws_then_body (nl :: body ++ close_fence ++ rest) = Some (skipn j body, rest).
Proof.
  intros Hb Hc. unfold ws_then_body.
  destruct (ws_run_app body (close_fence ++ rest) Hb) as [Hw _].
  replace (ws_run (nl :: body ++ close_fence ++ rest)) with (S (ws_run body))
    by (cbn [ws_run]; change (is_space nl) with true; cbv iota; now rewrite Hw).
  apply try_ws_block; auto.
Qed.

(** The group of the language tag: [None] when no tag is written. *)

Lemma match_at_block (tag body rest : pystr) :
  Forall (fun c => is_word c = true) tag -> strip body <> [] ->
  occurs close_fence body = false ->
  exists j, j <= ws_run body /\
    match_at (fence ++ tag ++ nl :: body ++ close_fence ++ rest)
    = Some (tag_group tag, skipn j body, rest).
Proof.
  intros Ht Hb Hc. destruct (ws_then_body_block body rest Hb Hc) as [j [Hj Hw]].
  exists j. split; [exact Hj|]. unfold match_at.
  change (prefixb fence (fence ++ tag ++ nl :: body ++ close_fence ++ rest)) with true.
  cbv iota. change (skipn 3 (fence ++ ?x)) with x.
  rewrite word_run_tag by exact Ht.
  destruct tag as [|c tag'].
  - cbn [app length try_word]. rewrite Hw. reflexivity.
  - change (length (c :: tag')) with (S (length tag')). cbn [try_word].
    change (S (length tag')) with (length (c :: tag')).
    rewrite skipn_app_length, Hw, firstn_app_length. reflexivity.
Qed.

(** ** [finditer] over text around fenced blocks *)

Lemma finditer_go_skip (x r : pystr) (pos : nat) :
  finditer_go (x ++ r) (length x) pos = finditer_go r 0 (pos + length x).
Proof.
  revert pos; induction x as [|c x IH]; intros pos; simpl.
  - now rewrite Nat.add_0_r.
  - rewrite IH. f_equal. lia.
Qed.

Lemma match_at_no_backtick (c : ascii) (t : pystr) :
  Ascii.eqb c backtick = false -> match_at (c :: t) = None.
Proof.
  intros H. unfold match_at.
  change (prefixb fence (c :: t)) with (Ascii.eqb backtick c && prefixb (lit "``") t).
  rewrite Ascii.eqb_sym, H. reflexivity.
Qed.

Lemma finditer_go_plain (x r : pystr) (pos : nat) :
  no_backtick x -> finditer_go (x ++ r) 0 pos = finditer_go r 0 (pos + length x).
Proof.
  intros H. revert pos; induction H as [|c x Hc _ IH]; intros pos; simpl.
  - now rewrite Nat.add_0_r.
  - rewrite match_at_no_backtick by exact Hc. rewrite IH. f_equal. lia.
Qed.

Lemma finditer_go_match (c : ascii) (x r : pystr) (pos : nat) g1 g2 :
  match_at (c :: x ++ r) = Some (g1, g2, r) ->
  finditer_go (c :: x ++ r) 0 pos
  = mkMatch pos (pos + S (length x)) g1 g2 :: finditer_go r 0 (pos + S (length x)).
Proof.
  intros H. cbn [finditer_go]. rewrite H. cbv zeta.
  replace (length (c :: x ++ r) - length r) with (S (length x))
    by (cbn [length]; rewrite length_app; lia).
  replace (S (length x) - 1) with (length x) by lia.
  rewrite finditer_go_skip. f_equal. f_equal. lia.
Qed.

Lemma fenced_block_app (tag body rest : pystr) :
  fenced_block tag body ++ rest = fence ++ tag ++ nl :: body ++ close_fence ++ rest.
Proof. unfold fenced_block. rewrite <- !app_assoc. cbn [app]. now rewrite <- app_assoc. Qed.

Lemma finditer_go_block (tag body rest : pystr) (pos : nat) :
  Forall (fun c => is_word c = true) tag -> strip body <> [] ->
  occurs close_fence body = false ->
  exists j, j <= ws_run body /\
    finditer_go (fenced_block tag body ++ rest) 0 pos
    = mkMatch pos (pos + length (fenced_block tag body)) (tag_group tag) (skipn j body)
      :: finditer_go rest 0 (pos + length (fenced_block tag body)).
Proof.
  intros Ht Hb Hc. destruct (match_at_block tag body rest Ht Hb Hc) as [j [Hj Hm]].
  exists j. split; [exact Hj|].
  assert (E : fenced_block tag body = backtick :: (lit "``" ++ tag ++ nl :: body ++ close_fence))
    by reflexivity.
  rewrite <- fenced_block_app in Hm. rewrite E in Hm |- *.
  rewrite <- app_comm_cons in Hm |- *.
  now apply finditer_go_match.
Qed.

(** ** Sections holding fenced blocks *)

Lemma lstrip_spaces (w x : pystr) :
  Forall (fun c => is_space c = true) w -> lstrip (w ++ x) = lstrip x.
Proof. induction 1 as [|c w Hc _ IH]; simpl; [reflexivity|]. now rewrite Hc. Qed.

Lemma rstrip_spaces (x w : pystr) :
  Forall (fun c => is_space c = true) w -> rstrip (x ++ w) = rstrip x.
Proof.
  intros H. unfold rstrip. rewrite rev_app_distr, lstrip_spaces; [reflexivity|].
  now apply Forall_rev.
Qed.

Lemma rstrip_app_nil (u v : pystr) : rstrip v = [] -> rstrip (u ++ v) = rstrip u.
Proof.
  intros H. destruct (rstrip_prefix v) as [w [Hw Hf]]. rewrite H in Hw. simpl in Hw.
  subst v. now apply rstrip_spaces.
Qed.

Lemma lstrip_rstrip_strip (s : pystr) : lstrip (rstrip s) = strip s.
Proof.
  destruct (lstrip_suffix s) as [w [Hw Hf]].
  destruct (rstrip_prefix (lstrip s)) as [w' [Hw' Hf']].
  remember (rstrip (lstrip s)) as r eqn:Er.
  assert (Hs : s = (w ++ r) ++ w') by (rewrite <- app_assoc, <- Hw'; exact Hw).
  unfold strip. rewrite <- Er. rewrite Hs, rstrip_spaces by exact Hf'.
  destruct r as [|c r'].
  - rewrite app_nil_r. change (rstrip w) with (rstrip ([] ++ w)).
    rewrite rstrip_spaces by exact Hf. reflexivity.
  - rewrite rstrip_app_nonnil.
    + rewrite lstrip_spaces by exact Hf. rewrite Er, rstrip_idem.
      apply lstrip_rstrip, lstrip_idem.
    + rewrite Er, rstrip_idem, <- Er. discriminate.
Qed.

Lemma strip_rstrip (s : pystr) : strip (rstrip s) = strip s.
Proof. unfold strip at 1. rewrite lstrip_rstrip_strip. unfold strip. apply rstrip_idem. Qed.

Lemma strip_lstrip (s : pystr) : strip (lstrip s) = strip s.
Proof. unfold strip. now rewrite lstrip_idem. Qed.

Lemma strip_skipn_ws (body : pystr) (j : nat) :
  j <= ws_run body -> strip (skipn j body) = strip body.
Proof.
  intros Hj. rewrite <- (firstn_skipn j body) at 2. unfold strip.
  rewrite lstrip_spaces by (now apply firstn_ws_run). reflexivity.
Qed.

Lemma strip_around (u b v : pystr) :
  lstrip b = b -> rstrip b = b -> b <> [] ->
  strip (u ++ b ++ v) = lstrip u ++ b ++ rstrip v.
Proof.
  intros Hl Hr Hne. unfold strip.
  assert (E : lstrip (u ++ b ++ v) = lstrip u ++ b ++ v).
  { destruct (lstrip u) eqn:Eu.
    - rewrite lstrip_app_nil by exact Eu. rewrite lstrip_app_nonnil by (rewrite Hl; exact Hne).
      now rewrite Hl.
    - rewrite lstrip_app_nonnil by (rewrite Eu; discriminate). now rewrite Eu. }
  rewrite E, app_assoc. destruct (rstrip v) eqn:Ev.
  - rewrite rstrip_app_nil by exact Ev. rewrite rstrip_app_nonnil by (rewrite Hr; exact Hne).
    now rewrite Hr, app_nil_r.
  - rewrite rstrip_app_nonnil by (rewrite Ev; discriminate). now rewrite Ev, app_assoc.
Qed.

Lemma fenced_block_nonnil (tag body : pystr) : fenced_block tag body <> [].
Proof. discriminate. Qed.

Lemma fenced_block_lstrip (tag body : pystr) : lstrip (fenced_block tag body) = fenced_block tag body.
Proof. reflexivity. Qed.

Lemma fenced_block_rstrip (tag body : pystr) : rstrip (fenced_block tag body) = fenced_block tag body.
Proof.
  unfold fenced_block.
  replace (fence ++ tag ++ nl :: body ++ close_fence)
    with ((fence ++ tag ++ nl :: body) ++ close_fence)
    by (rewrite <- !app_assoc; reflexivity).
  rewrite rstrip_app_nonnil by discriminate. reflexivity.
Qed.

Lemma no_backtick_lstrip (s : pystr) : no_backtick s -> no_backtick (lstrip s).
Proof.
  destruct (lstrip_suffix s) as [w [Hw _]]. intros H. rewrite Hw in H.
  now apply Forall_app in H as [_ H].
Qed.

Lemma no_backtick_rstrip (s : pystr) : no_backtick s -> no_backtick (rstrip s).
Proof.
  destruct (rstrip_prefix s) as [w [Hw _]]. intros H. rewrite Hw in H.
  now apply Forall_app in H as [H _].
Qed.

Lemma finditer_go_plain_nil (x : pystr) (pos : nat) : no_backtick x -> finditer_go x 0 pos = [].
Proof.
  intros H. pose proof (finditer_go_plain x [] pos H) as E. rewrite app_nil_r in E.
  rewrite E. reflexivity.
Qed.

Lemma md_entry_nil : md_entry [] = [].
Proof. reflexivity. Qed.

Lemma match_step_block (section gap tag body rest : pystr) (pos j : nat)
  (cells : list (kind * pystr)) :
  skipn pos section = gap ++ fenced_block tag body ++ rest ->
  strip body <> [] -> j <= ws_run body ->
  match_step section (pos, cells)
    (mkMatch (pos + length gap) (pos + length gap + length (fenced_block tag body))
       (tag_group tag) (skipn j body))
  = (pos + length gap + length (fenced_block tag body),
     cells ++ md_entry gap ++ [(K_code, annotated_code tag body)]).
Proof.
  intros Hs Hb Hj. unfold match_step. cbn [m_start m_end m_group1 m_group2].
  rewrite strip_skipn_ws by exact Hj.
  assert (Hslice : slice section pos (pos + length gap) = gap).
  { unfold slice. replace (pos + length gap - pos) with (length gap) by lia.
    rewrite Hs. apply firstn_app_length. }
  rewrite Hslice.
  assert (Hc : truthy (strip body) = true) by now apply truthy_nonnil.
  rewrite Hc.
  assert (Ha : (let language := match tag_group tag with Some l => l | None => lit "python" end in
     if negb (str_eqb (lower language) (lit "python"))
     then lit "# Language: " ++ language ++ [nl] ++ strip body else strip body)
     = annotated_code tag body) by (unfold annotated_code; destruct tag; reflexivity).
  cbv zeta in Ha. rewrite Ha. f_equal.
  destruct (Nat.ltb_spec pos (pos + length gap)) as [Hlt|Hge].
  - unfold md_entry. destruct (truthy (strip gap)); simpl; [now rewrite <- app_assoc|reflexivity].
  - destruct gap; [|simpl in Hge; lia]. reflexivity.
Qed.

Lemma truthy_app_mid {A} (x b y : list A) : b <> [] -> truthy (x ++ b ++ y) = true.
Proof.
  intros Hb. apply truthy_nonnil. intros E.
  apply app_eq_nil in E as [_ E]. apply app_eq_nil in E as [E _]. contradiction.
Qed.

Lemma truthy_app_cons {A} (x : list A) (y : A) (z : list A) : truthy (x ++ y :: z) = true.
Proof. now destruct x. Qed.

Lemma map_make_cell_md_entry (t : pystr) : map make_cell (md_entry t) = md_part t.
Proof. unfold md_entry, md_part. destruct (truthy (strip t)); reflexivity. Qed.

Lemma parse_cells_loop (content : pystr) :
  fst (sections_loop content) <> [] -> parse_cells content = fst (sections_loop content).
Proof.
  unfold parse_cells, md_to_cells. destruct (sections_loop content) as [[|c cs] cnt]; simpl.
  - congruence.
  - reflexivity.
Qed.

Lemma sections_loop_single (content : pystr) :
  occurs CELL_BOUNDARY content = false -> truthy (strip content) = true ->
  fst (sections_loop content) = map make_cell (process_section (strip content)).
Proof.
  intros Hm Ht. unfold sections_loop. rewrite split_no_occurrence by exact Hm.
  cbn [fold_left]. cbv beta iota zeta. rewrite Ht. reflexivity.
Qed.

(** The parser on one section made of a fenced block between two texts
    without backticks. *)
Lemma process_section_block (pre tag body post : pystr) :
  Forall (fun c => is_word c = true) tag ->
  strip body <> [] -> occurs close_fence body = false ->
  no_backtick pre -> no_backtick post ->
  process_section (lstrip pre ++ fenced_block tag body ++ rstrip post)
  = md_entry pre ++ (K_code, annotated_code tag body) :: md_entry post.
Proof.
  intros Ht Hb Hc Hpre Hpost. unfold process_section, finditer.
  pose proof (no_backtick_lstrip pre Hpre) as Hlp.
  pose proof (no_backtick_rstrip post Hpost) as Hrp.
  rewrite finditer_go_plain by exact Hlp.
  destruct (finditer_go_block tag body (rstrip post) (0 + length (lstrip pre)) Ht Hb Hc)
    as [j [Hj E]].
  rewrite E, finditer_go_plain_nil by exact Hrp. cbn [fold_left].
  rewrite (match_step_block _ (lstrip pre) tag body (rstrip post) 0 j [])
    by (reflexivity || assumption).
  cbv beta iota zeta.
  assert (Hl : md_entry (lstrip pre) = md_entry pre)
    by (unfold md_entry; now rewrite strip_lstrip).
  rewrite Hl.
  destruct (Nat.ltb_spec (0 + length (lstrip pre) + length (fenced_block tag body))
              (length (lstrip pre ++ fenced_block tag body ++ rstrip post))) as [Hlt|Hge].
  - unfold slice_from.
    replace (0 + length (lstrip pre) + length (fenced_block tag body))
      with (length (lstrip pre ++ fenced_block tag body)) by (rewrite length_app; lia).
    rewrite app_assoc, skipn_app_length, strip_rstrip.
    destruct (truthy (strip post)) eqn:Ep.
    + assert (Hp : md_entry post = [(K_markdown, strip post)])
        by (unfold md_entry; now rewrite Ep).
      rewrite Hp, <- !app_assoc. cbn [app]. now rewrite truthy_app_cons.
    + assert (Hp : md_entry post = []) by (unfold md_entry; now rewrite Ep).
      rewrite Hp, <- !app_assoc. cbn [app]. now rewrite truthy_app_cons.
  - rewrite !length_app in Hge.
    assert (Hr : rstrip post = []) by (destruct (rstrip post); [reflexivity|simpl in Hge; lia]).
    assert (Hp : md_entry post = [])
      by (unfold md_entry; rewrite <- strip_rstrip, Hr; reflexivity).
    rewrite Hp. cbn [app]. now rewrite truthy_app_cons.
Qed.

(** ** C4 *)

(** C4 (as amended): a text made of a fenced block, whose tag is a run of
    word characters (possibly empty) and whose body is not blank and holds
    no [\n```], between two texts without backticks, with no boundary
    marker anywhere, parses to the Markdown cell of the text before it (if
    not blank), one Code cell, and the Markdown cell of the text after it
    (if not blank).  The Code cell holds the stripped body, prefixed with
    the line [# Language: <tag>] exactly when the tag is present and is not
    [python] in any letter case. *)
Theorem fenced_block_language (pre tag body post : pystr) :
  Forall (fun c => is_word c = true) tag ->
  strip body <> [] -> occurs close_fence body = false ->
  no_backtick pre -> no_backtick post ->
  occurs CELL_BOUNDARY (pre ++ fenced_block tag body ++ post) = false ->
  parse_cells (pre ++ fenced_block tag body ++ post)
  = md_part pre ++ Code (annotated_code tag body) :: md_part post.
Proof.
  intros Ht Hb Hc Hpre Hpost Hm.
  assert (Hs : strip (pre ++ fenced_block tag body ++ post)
               = lstrip pre ++ fenced_block tag body ++ rstrip post)
    by (apply strip_around;
        [apply fenced_block_lstrip|apply fenced_block_rstrip|apply fenced_block_nonnil]).
  assert (E : fst (sections_loop (pre ++ fenced_block tag body ++ post))
              = md_part pre ++ Code (annotated_code tag body) :: md_part post).
  { rewrite sections_loop_single by
      (exact Hm || (rewrite Hs; apply truthy_app_mid, fenced_block_nonnil)).
    rewrite Hs, process_section_block by assumption.
    rewrite map_app. cbn [map]. now rewrite !map_make_cell_md_entry. }
  rewrite parse_cells_loop; rewrite E; [reflexivity|].
  destruct (md_part pre); discriminate.
Qed.

Lemma fenced_block_language_witness :
  parse_cells ([] ++ fenced_block (lit "javascript") (lit "console.log(1)") ++ [])
  = [Code (lit "# Language: javascript" ++ [nl] ++ lit "console.log(1)")].
Proof.
  rewrite (fenced_block_language [] (lit "javascript") (lit "console.log(1)") []).
  - reflexivity.
  - repeat (apply Forall_cons; [reflexivity|]). apply Forall_nil.
  - intros E. vm_compute in E. discriminate.
  - vm_compute. reflexivity.
  - constructor.
  - constructor.
  - vm_compute. reflexivity.
Defined.

Lemma fenced_block_language_counterexample :
  parse_cells (fenced_block (lit "javascript") (lit " "))
    = [Markdown (fenced_block (lit "javascript") (lit " "))]
  /\ parse_cells (fenced_block (lit "c++") (lit "x"))
    = [Markdown (fenced_block (lit "c++") (lit "x"))].
Proof. split; vm_compute; reflexivity. Qed.

(** ** Notebooks of Code cells *)

Lemma disjointb_cons (c : ascii) (g p : pystr) :
  disjointb (c :: g) p = true -> ~ In c p /\ disjointb g p = true.
Proof.
  unfold disjointb. cbn [forallb]. rewrite andb_true_iff, negb_true_iff. intros [H1 H2].
  split; [|exact H2]. intros Hin. rewrite <- not_true_iff_false in H1. apply H1.
  apply existsb_exists. exists c. split; [exact Hin|apply Ascii.eqb_refl].
Qed.

Lemma prefixb_sep (p s t : pystr) (c : ascii) :
  ~ In c p -> prefixb p (s ++ c :: t) = true -> prefixb p s = true.
Proof.
  revert s; induction p as [|d p IH]; intros s Hc H; [reflexivity|].
  destruct s as [|e s]; cbn [app prefixb] in H |- *.
  - apply andb_true_iff in H as [H _]. apply Ascii.eqb_eq in H. subst d.
    exfalso. apply Hc. now left.
  - apply andb_true_iff in H as [H1 H2]. rewrite H1. apply IH; [|exact H2].
    intros Hin. apply Hc. now right.
Qed.

Lemma occurs_nil (p : pystr) : p <> [] -> occurs p [] = false.
Proof. destruct p; [congruence|reflexivity]. Qed.

Lemma occurs_sep (p x y : pystr) (c : ascii) :
  ~ In c p -> p <> [] -> occurs p x = false -> occurs p y = false ->
  occurs p (x ++ c :: y) = false.
Proof.
  intros Hc Hp. induction x as [|a x IH]; intros Hx Hy.
  - cbn [app occurs]. rewrite Hy, orb_false_r.
    destruct p as [|d p]; [congruence|]. cbn [prefixb].
    destruct (Ascii.eqb d c) eqn:E; [|reflexivity].
    apply Ascii.eqb_eq in E. subst d. exfalso. apply Hc. now left.
  - apply occurs_cons_false in Hx as [H1 H2].
    change ((a :: x) ++ c :: y) with (a :: (x ++ c :: y)).
    cbn [occurs]. rewrite IH by assumption. rewrite orb_false_r.
    apply not_true_iff_false. intros E.
    change (a :: x ++ c :: y) with ((a :: x) ++ c :: y) in E.
    apply prefixb_sep in E; [congruence|exact Hc].
Qed.

Lemma occurs_glue (p x y : pystr) (c : ascii) (g : pystr) :
  p <> [] -> disjointb (c :: g) p = true ->
  occurs p x = false -> occurs p y = false -> occurs p (x ++ (c :: g) ++ y) = false.
Proof.
  intros Hp. revert x c; induction g as [|c' g IH]; intros x c Hd Hx Hy;
    apply disjointb_cons in Hd as [Hc Hd].
  - now apply occurs_sep.
  - replace (x ++ (c :: c' :: g) ++ y) with ((x ++ [c]) ++ (c' :: g) ++ y)
      by (rewrite <- app_assoc; reflexivity).
    apply IH; [exact Hd| |exact Hy].
    apply occurs_sep; [exact Hc|exact Hp|exact Hx|now apply occurs_nil].
Qed.

Lemma fenced_block_python (t : pystr) :
  fenced_block (lit "python") t = lit "```python" ++ (nl :: t) ++ close_fence.
Proof. reflexivity. Qed.

Lemma code_doc_no_boundary (rest : list pystr) (t x : pystr) :
  occurs CELL_BOUNDARY x = false ->
  Forall (fun u => occurs CELL_BOUNDARY u = false) (t :: rest) ->
  occurs CELL_BOUNDARY (x ++ fenced_block (lit "python") t ++ code_doc_tail rest) = false.
Proof.
  revert t x; induction rest as [|u rest IH]; intros t x Hx Hall;
    inversion Hall as [|? ? Ht Hrest]; subst.
  - cbn [code_doc_tail map concat]. rewrite app_nil_r, fenced_block_python.
    replace (x ++ lit "```python" ++ (nl :: t) ++ close_fence)
      with (x ++ lit "```python" ++ nl :: t ++ close_fence ++ [])
      by (now rewrite app_nil_r).
    change (lit "```python" ++ nl :: t ++ close_fence ++ [])
      with ((lit "```python" ++ [nl]) ++ t ++ close_fence ++ []).
    apply occurs_glue; try reflexivity; [discriminate|exact Hx|].
    apply occurs_glue; try reflexivity; [discriminate|exact Ht].
  - change (code_doc_tail (u :: rest))
      with (nl :: nl :: fenced_block (lit "python") u ++ code_doc_tail rest).
    replace (x ++ fenced_block (lit "python") t ++ nl :: nl :: fenced_block (lit "python") u
               ++ code_doc_tail rest)
      with ((x ++ lit "```python" ++ nl :: t ++ close_fence ++ [nl; nl])
              ++ fenced_block (lit "python") u ++ code_doc_tail rest)
      by (rewrite !fenced_block_python; cbn [app]; rewrite <- !app_assoc; cbn [app];
          now rewrite <- !app_assoc).
    apply IH; [|exact Hrest].
    change (lit "```python" ++ nl :: t ++ close_fence ++ [nl; nl])
      with ((lit "```python" ++ [nl]) ++ t ++ (close_fence ++ [nl; nl]) ++ []).
    apply occurs_glue; try reflexivity; [discriminate|exact Hx|].
    apply occurs_glue; try reflexivity; [discriminate|exact Ht].
Qed.

(** Serializing Code cells *)

Lemma ser_loop_code (cells : list cell) (ts : list pystr) (i : nat)
  (acc : list pystr) (cnt : nb_counts) :
  fst (ser_loop cells i (map Code ts) (acc, cnt))
  = acc ++ concat (map (fun t => if truthy (strip t)
                                 then [lit "```python"; t; fence; []] else []) ts).
Proof.
  revert i acc cnt; induction ts as [|t ts IH]; intros i acc cnt; cbn [map ser_loop].
  - now rewrite app_nil_r.
  - cbn [ser_step]. rewrite IH. cbn [map concat].
    destruct (truthy (strip t)); [now rewrite <- app_assoc|reflexivity].
Qed.

Lemma concat_code_lines (ts : list pystr) :
  concat (map (fun t => if truthy (strip t) then [lit "```python"; t; fence; []] else []) ts)
  = concat (map (fun t => [lit "```python"; t; fence; []])
                (filter (fun t => truthy (strip t)) ts)).
Proof.
  induction ts as [|t ts IH]; [reflexivity|]. cbn [map concat filter].
  destruct (truthy (strip t)); cbn [map concat app]; now rewrite IH.
Qed.

Lemma code_lines_shape (t : pystr) (rest : list pystr) :
  concat (map (fun u => [lit "```python"; u; fence; []]) (t :: rest))
  = (lit "```python" :: t :: concat (map (fun u => [fence; []; lit "```python"; u]) rest))
    ++ [fence; []].
Proof.
  revert t; induction rest as [|u rest IH]; intros t; [reflexivity|].
  change (concat (map (fun u => [lit "```python"; u; fence; []]) (t :: u :: rest)))
    with ([lit "```python"; t; fence; []]
            ++ concat (map (fun u => [lit "```python"; u; fence; []]) (u :: rest))).
  rewrite IH. reflexivity.
Qed.

Lemma trim_trailing_fence (x : list pystr) : trim_trailing (x ++ [fence; []]) = x ++ [fence].
Proof.
  unfold trim_trailing. rewrite rev_app_distr. cbn [rev app].
  change (drop_blank_rev ([] :: fence :: rev x)) with (fence :: rev x).
  cbn [rev]. now rewrite rev_involutive.
Qed.

Lemma join_nl_cons (x : pystr) (l : list pystr) :
  join [nl] (x :: l) = x ++ concat (map (cons nl) l).
Proof.
  revert x; induction l as [|y l IH]; intros x; [cbn; now rewrite app_nil_r|].
  change (join [nl] (x :: y :: l)) with (x ++ [nl] ++ join [nl] (y :: l)).
  rewrite IH. reflexivity.
Qed.

Lemma code_tail_lines (rest : list pystr) :
  concat (map (cons nl) (concat (map (fun u => [fence; []; lit "```python"; u]) rest)))
    ++ nl :: fence
  = nl :: fence ++ code_doc_tail rest.
Proof.
  induction rest as [|u rest IH]; [reflexivity|].
  cbn [map concat]. rewrite map_app, concat_app.
  rewrite <- (app_assoc (concat (map (cons nl) [fence; []; lit "```python"; u]))).
  unfold pystr in *. rewrite IH.
  change (code_doc_tail (u :: rest))
    with (nl :: nl :: fenced_block (lit "python") u ++ code_doc_tail rest).
  rewrite fenced_block_python. cbn [map concat app]. rewrite <- !app_assoc, app_nil_r.
  cbn [app]. rewrite <- !app_assoc. reflexivity.
Qed.

Lemma serialize_code_cells (ts : list pystr) :
  serialize (map Code ts)
  = match filter (fun t => truthy (strip t)) ts with
    | [] => []
    | t :: rest => fenced_block (lit "python") t ++ code_doc_tail rest
    end.
Proof.
  unfold serialize, cells_to_md.
  pose proof (ser_loop_code (map Code ts) ts 0 [] nb_counts0) as E.
  destruct (ser_loop (map Code ts) 0 (map Code ts) ([], nb_counts0)) as [content cnt].
  cbn [fst] in E |- *. rewrite E, concat_code_lines. cbn [app].
  destruct (filter (fun t => truthy (strip t)) ts) as [|t rest]; [reflexivity|].
  rewrite code_lines_shape, trim_trailing_fence. cbn [app]. rewrite join_nl_cons.
  cbn [map concat]. rewrite map_app, concat_app. cbn [map concat].
  rewrite app_nil_r. rewrite code_tail_lines, fenced_block_python.
  cbn [app]. rewrite <- !app_assoc. cbn [app]. rewrite <- !app_assoc. reflexivity.
Qed.

(** Parsing the text of Code cells back *)

Lemma python_word : Forall (fun c => is_word c = true) (lit "python").
Proof. repeat constructor. Qed.

Lemma code_doc_ends (rest : list pystr) (t : pystr) :
  exists x, fenced_block (lit "python") t ++ code_doc_tail rest = x ++ close_fence.
Proof.
  revert t; induction rest as [|u rest IH]; intros t.
  - exists (lit "```python" ++ nl :: t). cbn [code_doc_tail map concat].
    rewrite app_nil_r, fenced_block_python. cbn [app]. now rewrite <- app_assoc.
  - destruct (IH u) as [x Hx]. exists (fenced_block (lit "python") t ++ [nl; nl] ++ x).
    change (code_doc_tail (u :: rest))
      with (nl :: nl :: fenced_block (lit "python") u ++ code_doc_tail rest).
    rewrite <- !app_assoc, <- Hx. reflexivity.
Qed.

Lemma code_doc_stripped (t : pystr) (rest : list pystr) :
  strip (fenced_block (lit "python") t ++ code_doc_tail rest)
  = fenced_block (lit "python") t ++ code_doc_tail rest.
Proof.
  unfold strip.
  change (lstrip (fenced_block (lit "python") t ++ code_doc_tail rest))
    with (fenced_block (lit "python") t ++ code_doc_tail rest).
  destruct (code_doc_ends rest t) as [x Hx]. rewrite Hx.
  rewrite rstrip_app_nonnil by discriminate. reflexivity.
Qed.

Lemma code_doc_tail_fold (section : pystr) (rest : list pystr) (pos : nat)
  (cells : list (kind * pystr)) :
  Forall (fun u => strip u <> [] /\ occurs close_fence u = false) rest ->
  skipn pos section = code_doc_tail rest ->
  fold_left (match_step section) (finditer_go (code_doc_tail rest) 0 pos) (pos, cells)
  = (pos + length (code_doc_tail rest), cells ++ map (fun u => (K_code, strip u)) rest).
Proof.
  revert pos cells; induction rest as [|u rest IH]; intros pos cells Hall Hs.
  - cbn. now rewrite Nat.add_0_r, app_nil_r.
  - inversion Hall as [|? ? [Hb Hc] Hrest]; subst.
    change (code_doc_tail (u :: rest))
      with ([nl; nl] ++ fenced_block (lit "python") u ++ code_doc_tail rest) in Hs |- *.
    rewrite finditer_go_plain by (repeat constructor).
    destruct (finditer_go_block (lit "python") u (code_doc_tail rest)
                (pos + length [nl; nl]) python_word Hb Hc) as [j [Hj E]].
    rewrite E. cbn [fold_left].
    rewrite (match_step_block section [nl; nl] (lit "python") u (code_doc_tail rest) pos j cells)
      by assumption.
    change (md_entry [nl; nl]) with (@nil (kind * pystr)).
    change (annotated_code (lit "python") u) with (strip u).
    rewrite IH; [|exact Hrest|].
    + f_equal.
      * rewrite !length_app. lia.
      * cbn [app map]. now rewrite <- app_assoc.
    + replace (pos + length [nl; nl] + length (fenced_block (lit "python") u))
        with (length ([nl; nl] ++ fenced_block (lit "python") u) + pos)
        by (rewrite length_app; lia).
      rewrite <- skipn_skipn, Hs, app_assoc. apply skipn_app_length.
Qed.

Lemma process_section_code_doc (t : pystr) (rest : list pystr) :
  Forall (fun u => strip u <> [] /\ occurs close_fence u = false) (t :: rest) ->
  process_section (fenced_block (lit "python") t ++ code_doc_tail rest)
  = map (fun u => (K_code, strip u)) (t :: rest).
Proof.
  intros Hall. inversion Hall as [|? ? [Hb Hc] Hrest]; subst.
  unfold process_section, finditer.
  destruct (finditer_go_block (lit "python") t (code_doc_tail rest) 0 python_word Hb Hc)
    as [j [Hj E]].
  rewrite E. cbn [fold_left].
  pose proof (match_step_block (fenced_block (lit "python") t ++ code_doc_tail rest) []
                (lit "python") t (code_doc_tail rest) 0 j [] eq_refl Hb Hj) as M.
  cbn [length Nat.add] in M |- *. rewrite M.
  change (md_entry []) with (@nil (kind * pystr)).
  change (annotated_code (lit "python") t) with (strip t).
  rewrite code_doc_tail_fold; [|exact Hrest|apply skipn_app_length].
  rewrite length_app, Nat.ltb_irrefl. reflexivity.
Qed.

(** ** C1 *)

(** C1 (as amended): for a notebook of Code cells whose texts hold neither
    a newline followed by three backticks nor the cell boundary marker,
    serializing and parsing back gives one Code cell per non-blank cell, in
    order, holding that cell's text stripped of surrounding whitespace; when
    every cell is blank the result is one empty Code cell. *)
Theorem code_only_round_trip (ts : list pystr) :
  Forall (fun t => occurs close_fence t = false /\ occurs CELL_BOUNDARY t = false) ts ->
  parse_cells (serialize (map Code ts))
  = match filter (fun t => truthy (strip t)) ts with
    | [] => [Code []]
    | ts' => map (fun t => Code (strip t)) ts'
    end.
Proof.
  intros Hall. rewrite serialize_code_cells.
  assert (Hf : Forall (fun t => strip t <> [] /\ occurs close_fence t = false
                                /\ occurs CELL_BOUNDARY t = false)
                 (filter (fun t => truthy (strip t)) ts)).
  { apply Forall_forall. intros x Hx. apply filter_In in Hx as [Hin Ht].
    rewrite Forall_forall in Hall. destruct (Hall x Hin) as [H1 H2].
    split; [now apply truthy_nonnil|auto]. }
  destruct (filter (fun t => truthy (strip t)) ts) as [|t rest]; [reflexivity|].
  assert (E : fst (sections_loop (fenced_block (lit "python") t ++ code_doc_tail rest))
              = map (fun u => Code (strip u)) (t :: rest)).
  { rewrite sections_loop_single.
    - rewrite code_doc_stripped, process_section_code_doc.
      + rewrite map_map. reflexivity.
      + eapply Forall_impl; [|exact Hf]. intros u [H1 [H2 _]]. now split.
    - apply (code_doc_no_boundary rest t []); [reflexivity|].
      eapply Forall_impl; [|exact Hf]. intros u [_ [_ H]]. exact H.
    - now rewrite code_doc_stripped. }
  rewrite parse_cells_loop; rewrite E; [reflexivity|discriminate].
Qed.

Lemma code_only_round_trip_witness :
  parse_cells (serialize (map Code [lit "x = 1"; lit "print(x)"]))
  = [Code (lit "x = 1"); Code (lit "print(x)")].
Proof.
  rewrite (code_only_round_trip [lit "x = 1"; lit "print(x)"]).
  - reflexivity.
  - repeat (apply Forall_cons; [split; vm_compute; reflexivity|]). apply Forall_nil.
Defined.

Lemma code_only_round_trip_counterexample :
  parse_cells (serialize [Code (lit " x")]) = [Code (lit "x")]
  /\ parse_cells (serialize []) = [Code []]
  /\ parse_cells (serialize [Code (lit "a"); Code (lit " ")]) = [Code (lit "a")]
  /\ parse_cells (serialize [Code (lit "a" ++ close_fence ++ nl :: lit "b")])
     = [Code (lit "a"); Markdown (lit "b" ++ close_fence)].
Proof. repeat split; vm_compute; reflexivity. Qed.

(** * Further properties of the two conversions *)

(** ** Counting cells *)

Lemma ser_step_counts (cells : list cell) (st : list pystr * nb_counts) (i : nat) (c : cell) :
  snd (ser_step cells st i c)
  = {| nc_markdown := nc_markdown (snd st) + count_markdown [c];
       nc_code := nc_code (snd st) + count_code [c];
       nc_raw := nc_raw (snd st) + count_raw [c] |}.
Proof.
  destruct st as [content cnt]; destruct c; cbn [ser_step snd];
    unfold count_markdown, count_code, count_raw; simpl; f_equal; lia.
Qed.

Lemma ser_loop_counts (cells : list cell) (i : nat) (l : list cell)
  (st : list pystr * nb_counts) :
  snd (ser_loop cells i l st)
  = {| nc_markdown := nc_markdown (snd st) + count_markdown l;
       nc_code := nc_code (snd st) + count_code l;
       nc_raw := nc_raw (snd st) + count_raw l |}.
Proof.
  revert i st; induction l as [|c l IH]; intros i st; cbn [ser_loop].
  - destruct st as [content [m k r]]. unfold count_markdown, count_code, count_raw.
    simpl. f_equal; lia.
  - rewrite IH, ser_step_counts. cbn [nc_markdown nc_code nc_raw].
    unfold count_markdown, count_code, count_raw.
    destruct c; cbn [filter length]; f_equal; lia.
Qed.

Lemma count_kinds_length (cells : list cell) :
  count_markdown cells + count_code cells + count_raw cells = length cells.
Proof.
  unfold count_markdown, count_code, count_raw.
  induction cells as [|c cells IH]; [reflexivity|]. destruct c; simpl; lia.
Qed.

(** [convert_ipynb_to_md] counts every Markdown, Code and Raw cell under
    its kind, blank or not. *)
Theorem cells_to_md_counts (cells : list cell) :
  snd (cells_to_md cells)
  = {| nc_markdown := count_markdown cells; nc_code := count_code cells;
       nc_raw := count_raw cells |}.
Proof.
  unfold cells_to_md. pose proof (ser_loop_counts cells 0 cells ([], nb_counts0)) as H.
  destruct (ser_loop cells 0 cells ([], nb_counts0)) as [content cnt].
  exact H.
Qed.

(** ** Blank notebooks *)

Lemma ser_loop_blank (cells : list cell) (i : nat) (l : list cell) (acc : list pystr)
  (cnt : nb_counts) :
  Forall (fun c => strip (cell_source c) = []) l ->
  fst (ser_loop cells i l (acc, cnt)) = acc.
Proof.
  intros H. revert i cnt; induction H as [|c l Hc _ IH]; intros i cnt; [reflexivity|].
  cbn [ser_loop]. destruct c; cbn [cell_source] in Hc; cbn [ser_step]; rewrite Hc; apply IH.
Qed.

(** A notebook whose cells all hold blank text is written as the empty text. *)
Theorem serialize_blank_notebook (cells : list cell) :
  Forall (fun c => strip (cell_source c) = []) cells -> serialize cells = [].
Proof.
  intros H. unfold serialize, cells_to_md.
  pose proof (ser_loop_blank cells 0 cells [] nb_counts0 H) as E.
  destruct (ser_loop cells 0 cells ([], nb_counts0)) as [content cnt].
  cbn [fst] in E |- *. now subst.
Qed.

(** ** Where the boundary marker goes *)

Lemma trim_trailing_last (l : list pystr) (x : pystr) :
  truthy (strip x) = true -> trim_trailing (l ++ [x; []]) = l ++ [x].
Proof.
  intros H. unfold trim_trailing. rewrite rev_app_distr. cbn [rev app].
  change (drop_blank_rev ([] :: x :: rev l)) with (drop_blank_rev (x :: rev l)).
  cbn [drop_blank_rev]. rewrite H. cbn [rev]. now rewrite rev_involutive.
Qed.


(** Two consecutive non-blank non-code cells: the marker is written between
    them exactly when the second is Markdown, or the first is Raw; Markdown
    followed by Raw is joined by a blank line only. *)
Ltac ser_pair b Ha Hb :=
  unfold serialize, cells_to_md; cbn [ser_loop ser_step]; rewrite Ha, Hb;
  match goal with |- context [next_is ?l 0 ?p] =>
    let v := eval vm_compute in (next_is l 0 p) in change (next_is l 0 p) with v end;
  match goal with |- context [next_is ?l 1 ?p] =>
    let v := eval vm_compute in (next_is l 1 p) in change (next_is l 1 p) with v end;
  cbv iota; cbn [fst app];
  match goal with |- context [trim_trailing (?x :: ?y :: ?z)] =>
    let l := eval cbv [removelast] in (removelast (removelast (x :: y :: z))) in
    change (x :: y :: z) with (l ++ [b; []]) end;
  rewrite trim_trailing_last by exact Hb; cbn [app]; rewrite join_nl_cons;
  unfold marker_sep; cbn [map concat app]; rewrite app_nil_r; now rewrite <- ?app_assoc.

(** Two consecutive non-blank non-code cells: the marker is written between
    them exactly when the second is Markdown, or the first is Raw; Markdown
    followed by Raw is joined by a blank line only. *)
Theorem serialize_two_text_cells (a b : pystr) :
  strip a <> [] -> strip b <> [] ->
  serialize [Markdown a; Markdown b] = a ++ marker_sep ++ b
  /\ serialize [Markdown a; Raw b] = a ++ [nl; nl] ++ b
  /\ serialize [Raw a; Markdown b] = a ++ marker_sep ++ b
  /\ serialize [Raw a; Raw b] = a ++ marker_sep ++ b.
Proof.
  intros Ha Hb. apply truthy_nonnil in Ha, Hb.
  repeat split; ser_pair b Ha Hb.
Qed.

Lemma serialize_two_text_cells_witness :
  serialize [Markdown (lit "A"); Raw (lit "B")] = lit "A" ++ [nl; nl] ++ lit "B".
Proof.
  destruct (serialize_two_text_cells (lit "A") (lit "B")) as [_ [H _]];
    [discriminate|discriminate|exact H].
Defined.

(** ** The file system effects of the two operations *)

Lemma lookup_file_write (files : list (pystr * pystr)) (dirs : list pystr) (p d q : pystr) :
  lookup_file {| fs_files := (p, d) :: filter (fun e => negb (str_eqb (fst e) p)) files;
                 fs_dirs := dirs |} q
  = if str_eqb p q then Some d else lookup_file {| fs_files := files; fs_dirs := dirs |} q.
Proof.
  unfold lookup_file; cbn [fs_files fst find].
  destruct (str_eqb p q) eqn:Epq; [reflexivity|].
  induction files as [|[k v] files IH]; [reflexivity|]. cbn [filter fst find].
  destruct (str_eqb k p) eqn:Ekp; cbn [negb].
  - apply str_eqb_eq in Ekp; subst k. cbn [find fst]. rewrite Epq. exact IH.
  - cbn [find fst]. destruct (str_eqb k q); [reflexivity|]. exact IH.
Qed.

(** A source path that does not exist is rejected by both operations
    before anything else happens: the result is the error
    [Source file not found: <path>] and the file system is unchanged. *)
Theorem missing_source_rejected (nbformat_read : pystr -> pystr + list cell)
  (nbformat_write : list cell -> pystr) (source_path output_dir : pystr) (fs : FS) :
  path_exists fs source_path = false ->
  convert_md_to_ipynb nbformat_write source_path output_dir fs
    = (error_dict (lit "Source file not found: " ++ source_path), fs)
  /\ convert_ipynb_to_md nbformat_read source_path output_dir fs
    = (error_dict (lit "Source file not found: " ++ source_path), fs).
Proof.
  intros H. unfold_op. cbv beta iota. rewrite H. split; reflexivity.
Qed.

(** An existing source whose suffix, lower-cased, is not [.md] or
    [.markdown] (resp. not [.ipynb]) is rejected by [convert_md_to_ipynb]
    (resp. [convert_ipynb_to_md]) with the suffix in the message, and the
    file system is unchanged. *)
Theorem wrong_suffix_rejected (nbformat_read : pystr -> pystr + list cell)
  (nbformat_write : list cell -> pystr) (source_path output_dir : pystr) (fs : FS) :
  path_exists fs source_path = true ->
  (str_eqb (lower (path_suffix source_path)) (lit ".md")
   || str_eqb (lower (path_suffix source_path)) (lit ".markdown") = false ->
   convert_md_to_ipynb nbformat_write source_path output_dir fs
   = (error_dict (lit "Source file must be a .md or .markdown file, got: "
                  ++ path_suffix source_path), fs))
  /\ (str_eqb (lower (path_suffix source_path)) (lit ".ipynb") = false ->
   convert_ipynb_to_md nbformat_read source_path output_dir fs
   = (error_dict (lit "Source file must be a .ipynb file, got: "
                  ++ path_suffix source_path), fs)).
Proof.
  intros H. unfold_op. cbv beta iota. rewrite H. cbn [negb].
  split; intros Hs; rewrite Hs; reflexivity.
Qed.

(** When the output directory names an existing file, both operations fail
    at [mkdir] with status [error] and leave the file system unchanged. *)
Theorem output_dir_file_rejected (nbformat_read : pystr -> pystr + list cell)
  (nbformat_write : list cell -> pystr) (source_path output_dir d : pystr) (fs : FS) :
  path_exists fs source_path = true -> lookup_file fs output_dir = Some d ->
  (str_eqb (lower (path_suffix source_path)) (lit ".md")
   || str_eqb (lower (path_suffix source_path)) (lit ".markdown") = true ->
   dict_get (fst (convert_md_to_ipynb nbformat_write source_path output_dir fs))
     (lit "status") = Some (VStr (lit "error"))
   /\ snd (convert_md_to_ipynb nbformat_write source_path output_dir fs) = fs)
  /\ (str_eqb (lower (path_suffix source_path)) (lit ".ipynb") = true ->
   dict_get (fst (convert_ipynb_to_md nbformat_read source_path output_dir fs))
     (lit "status") = Some (VStr (lit "error"))
   /\ snd (convert_ipynb_to_md nbformat_read source_path output_dir fs) = fs).
Proof.
  intros H Hd. unfold_op. cbv beta iota. rewrite H. cbn [negb].
  split; intros Hs; rewrite Hs; cbn [negb]; cbv beta iota; rewrite Hd; split; reflexivity.
Qed.

Lemma conversion_frame (nbformat_read : pystr -> pystr + list cell)
  (nbformat_write : list cell -> pystr) (source_path output_dir p : pystr) (fs : FS) :
  (p <> path_join output_dir (path_stem source_path ++ lit ".ipynb") ->
   lookup_file (snd (convert_md_to_ipynb nbformat_write source_path output_dir fs)) p
   = lookup_file fs p)
  /\ (p <> path_join output_dir (path_stem source_path ++ lit ".md") ->
   lookup_file (snd (convert_ipynb_to_md nbformat_read source_path output_dir fs)) p
   = lookup_file fs p).
Proof.
  split; intros Hp.
  - destruct (convert_md_to_ipynb nbformat_write source_path output_dir fs) as [r fs'] eqn:H.
    cbn [snd]. revert H. unfold_op. intros H. simpl in H. run_op H.
    all: inversion H; subst; clear H; try reflexivity.
    all: rewrite lookup_file_write; destruct (str_eqb _ p) eqn:Ep;
      [apply str_eqb_eq in Ep; subst p; exfalso; apply Hp; reflexivity|reflexivity].
  - destruct (convert_ipynb_to_md nbformat_read source_path output_dir fs) as [r fs'] eqn:H.
    cbn [snd]. revert H. unfold_op. intros H. simpl in H. run_op H.
    all: inversion H; subst; clear H; try reflexivity.
    all: rewrite lookup_file_write; destruct (str_eqb _ p) eqn:Ep;
      [apply str_eqb_eq in Ep; subst p; exfalso; apply Hp; reflexivity|reflexivity].
Qed.

(** Whatever happens, each operation leaves every file other than its
    output file [<output_dir>/<stem>.ipynb] (resp. [.md]) as it was. *)
Theorem conversion_touches_only_output (nbformat_read : pystr -> pystr + list cell)
  (nbformat_write : list cell -> pystr) (source_path output_dir p : pystr) (fs : FS) :
  (p <> path_join output_dir (path_stem source_path ++ lit ".ipynb") ->
   lookup_file (snd (convert_md_to_ipynb nbformat_write source_path output_dir fs)) p
   = lookup_file fs p)
  /\ (p <> path_join output_dir (path_stem source_path ++ lit ".md") ->
   lookup_file (snd (convert_ipynb_to_md nbformat_read source_path output_dir fs)) p
   = lookup_file fs p).
Proof.
  exact (conversion_frame nbformat_read nbformat_write source_path output_dir p fs).
Qed.

(** A successful [convert_md_to_ipynb] reports the output path
    [<output_dir>/<stem>.ipynb], and that file then holds the notebook
    nbformat writes for the cells parsed from the source text, read with
    its line ends translated. *)
Theorem md_to_ipynb_writes_notebook (nbformat_write : list cell -> pystr)
  (source_path output_dir : pystr) (fs : FS) (r : pydict) (fs' : FS) :
  convert_md_to_ipynb nbformat_write source_path output_dir fs = (r, fs') ->
  dict_get r (lit "status") = Some (VStr (lit "success")) ->
  exists content,
    lookup_file fs source_path = Some content
    /\ dict_get r (lit "output_path")
       = Some (VStr (path_join output_dir (path_stem source_path ++ lit ".ipynb")))
    /\ lookup_file fs' (path_join output_dir (path_stem source_path ++ lit ".ipynb"))
       = Some (nbformat_write (parse_cells (univ_newlines content))).
Proof.
  unfold_op. intros H Hs. simpl in H. run_op H.
  all: inversion H; subst; clear H; try discriminate.
  all: eexists; split; [eassumption || reflexivity|]; split; [reflexivity|].
  all: rewrite lookup_file_write, str_eqb_refl; unfold parse_cells.
  all: match goal with Hm : md_to_cells _ = _ |- _ => rewrite Hm end; reflexivity.
Qed.

(** A successful [convert_ipynb_to_md] reports the output path
    [<output_dir>/<stem>.md], and that file then holds the text serialized
    from the cells nbformat read from the source (read with its line ends
    translated). *)
Theorem ipynb_to_md_writes_text (nbformat_read : pystr -> pystr + list cell)
  (source_path output_dir : pystr) (fs : FS) (r : pydict) (fs' : FS) :
  convert_ipynb_to_md nbformat_read source_path output_dir fs = (r, fs') ->
  dict_get r (lit "status") = Some (VStr (lit "success")) ->
  exists data cells,
    lookup_file fs source_path = Some data
    /\ nbformat_read (univ_newlines data) = inr cells
    /\ dict_get r (lit "output_path")
       = Some (VStr (path_join output_dir (path_stem source_path ++ lit ".md")))
    /\ lookup_file fs' (path_join output_dir (path_stem source_path ++ lit ".md"))
       = Some (serialize cells).
Proof.
  unfold_op. intros H Hs. simpl in H. run_op H.
  all: inversion H; subst; clear H; try discriminate.
  all: do 2 eexists; split; [eassumption || reflexivity|]; split; [eassumption|]; split; [reflexivity|].
  all: rewrite lookup_file_write, str_eqb_refl; unfold serialize.
  all: match goal with Hm : cells_to_md _ = _ |- _ => rewrite Hm end; reflexivity.
Qed.

(** When the output directory already exists and nbformat rejects the
    source of [convert_ipynb_to_md], the result is the error with
    nbformat's message and the file system is unchanged. *)
Theorem unreadable_notebook_rejected (nbformat_read : pystr -> pystr + list cell)
  (source_path output_dir data e : pystr) (fs : FS) :
  str_eqb (lower (path_suffix source_path)) (lit ".ipynb") = true ->
  lookup_file fs source_path = Some data ->
  lookup_file fs output_dir = None -> is_dir fs output_dir = true ->
  nbformat_read (univ_newlines data) = inl e ->
  convert_ipynb_to_md nbformat_read source_path output_dir fs = (error_dict e, fs).
Proof.
  intros Hs Hl Ho Hd He. unfold_op. cbv beta iota.
  assert (path_exists fs source_path = true) as Hx by (unfold path_exists; now rewrite Hl).
  rewrite Hx, Hs. cbn [negb]. cbv beta iota. rewrite Ho, Hd. cbv beta iota.
  rewrite Hl. cbv beta iota. rewrite He. reflexivity.
Qed.

(** ** [call_tool] *)

(** A tool call whose [source_path] or [output_dir] is missing or empty
    returns the required-arguments error, whatever the tool name, and
    touches nothing. *)
Theorem call_tool_requires_arguments (json_dumps : pydict -> pystr)
  (nbformat_read : pystr -> pystr + list cell) (nbformat_write : list cell -> pystr)
  (name : pystr) (args : list (pystr * pystr)) (fs : FS) :
  truthy (arg_get args (lit "source_path")) = false
  \/ truthy (arg_get args (lit "output_dir")) = false ->
  call_tool json_dumps nbformat_read nbformat_write name args fs
  = ([json_dumps (error_dict (lit "Error occurred during tool execution: "
                              ++ lit "source_path and output_dir are required arguments."))],
     fs).
Proof.
  intros H. unfold call_tool, call_tool_body, bind, when, raise. cbv beta zeta.
  replace (negb (truthy (arg_get args (lit "source_path")))
           || negb (truthy (arg_get args (lit "output_dir")))) with true
    by (destruct H as [-> | ->]; [reflexivity|now rewrite orb_comm]).
  reflexivity.
Qed.

(** With both arguments given, a tool name other than [convert_notebook]
    and [convert_markdown] returns the unknown-tool error and touches
    nothing. *)
Theorem call_tool_unknown_name (json_dumps : pydict -> pystr)
  (nbformat_read : pystr -> pystr + list cell) (nbformat_write : list cell -> pystr)
  (name : pystr) (args : list (pystr * pystr)) (fs : FS) :
  truthy (arg_get args (lit "source_path")) = true ->
  truthy (arg_get args (lit "output_dir")) = true ->
  str_eqb name (lit "convert_notebook") = false ->
  str_eqb name (lit "convert_markdown") = false ->
  call_tool json_dumps nbformat_read nbformat_write name args fs
  = ([json_dumps (error_dict (lit "Error occurred during tool execution: "
                              ++ lit "Unknown tool name: " ++ name))], fs).
Proof.
  intros Hs Ho Hn Hm. unfold call_tool, call_tool_body, bind, when, raise, ret.
  cbv beta zeta. rewrite Hs, Ho, Hn, Hm. reflexivity.
Qed.

(** A tool call changes no file other than the output file of one of the
    two conversions for the given arguments. *)
Theorem call_tool_touches_only_output (json_dumps : pydict -> pystr)
  (nbformat_read : pystr -> pystr + list cell) (nbformat_write : list cell -> pystr)
  (name : pystr) (args : list (pystr * pystr)) (fs : FS) (p : pystr) :
  let source_path := arg_get args (lit "source_path") in
  let output_dir := arg_get args (lit "output_dir") in
  p <> path_join output_dir (path_stem source_path ++ lit ".md") ->
  p <> path_join output_dir (path_stem source_path ++ lit ".ipynb") ->
  lookup_file (snd (call_tool json_dumps nbformat_read nbformat_write name args fs)) p
  = lookup_file fs p.
Proof.
  intros source_path output_dir H1 H2.
  destruct (conversion_frame nbformat_read nbformat_write source_path output_dir p fs)
    as [F1 F2].
  unfold call_tool, call_tool_body, bind, when, raise, ret, lift.
  fold source_path output_dir.
  destruct (negb (truthy source_path) || negb (truthy output_dir)); [reflexivity|].
  destruct (str_eqb name (lit "convert_notebook")).
  - specialize (F2 H1).
    destruct (convert_ipynb_to_md nbformat_read source_path output_dir fs). exact F2.
  - destruct (str_eqb name (lit "convert_markdown")); [|reflexivity].
    specialize (F1 H2).
    destruct (convert_md_to_ipynb nbformat_write source_path output_dir fs). exact F1.
Qed.

(** ** The counts [convert_md_to_ipynb] reports *)

Lemma count_markdown_app (a b : list cell) :
  count_markdown (a ++ b) = count_markdown a + count_markdown b.
Proof. unfold count_markdown. now rewrite filter_app, length_app. Qed.

Lemma count_kinds_fold (l : list (kind * pystr)) (m k : nat) :
  fold_left (fun c kt => count_kind c (fst kt)) l {| cnt_markdown := m; cnt_code := k |}
  = {| cnt_markdown := m + count_markdown (map make_cell l);
       cnt_code := k + count_code (map make_cell l) |}.
Proof.
  revert m k; induction l as [|[[|] t] l IH]; intros m k; cbn [fold_left fst count_kind].
  - f_equal; unfold count_markdown, count_code; simpl; lia.
  - rewrite IH. cbn [cnt_markdown cnt_code map make_cell].
    unfold count_markdown, count_code; cbn [filter length]. f_equal; lia.
  - rewrite IH. cbn [cnt_markdown cnt_code map make_cell].
    unfold count_markdown, count_code; cbn [filter length]. f_equal; lia.
Qed.

Lemma sections_loop_counts (content : pystr) :
  snd (sections_loop content)
  = {| cnt_markdown := count_markdown (fst (sections_loop content));
       cnt_code := count_code (fst (sections_loop content)) |}.
Proof.
  unfold sections_loop.
  apply (fold_left_invariant _
           (fun st => snd st = {| cnt_markdown := count_markdown (fst st);
                                  cnt_code := count_code (fst st) |})); [reflexivity|].
  intros [cells cnt] section H. cbn [fst snd] in H |- *.
  destruct (negb (truthy (strip section))); cbn [fst snd]; [exact H|].
  rewrite H, count_kinds_fold, count_markdown_app, count_code_app. reflexivity.
Qed.

Lemma count_raw_not_raw (cells : list cell) : Forall not_raw cells -> count_raw cells = 0.
Proof.
  unfold count_raw. induction 1 as [|c cells Hc _ IH]; [reflexivity|].
  destruct c; [exact IH|exact IH|contradiction].
Qed.

(** The counts [convert_md_to_ipynb] returns under [cells_created] are the
    numbers of Markdown and of Code cells of the notebook it builds, their
    sum [total_cells] is its number of cells, and that notebook has at least
    one cell. *)
Theorem md_to_cells_counts (content : pystr) :
  snd (md_to_cells content)
  = {| cnt_markdown := count_markdown (parse_cells content);
       cnt_code := count_code (parse_cells content) |}
  /\ count_markdown (parse_cells content) + count_code (parse_cells content)
     = length (parse_cells content)
  /\ parse_cells content <> [].
Proof.
  unfold parse_cells, md_to_cells. pose proof (sections_loop_counts content) as H.
  pose proof (sections_loop_not_raw content) as Hr.
  destruct (sections_loop content) as [cells cnt]. cbn [fst snd] in H, Hr |- *.
  destruct cells as [|c cells].
  - subst cnt. destruct (truthy (strip content)); repeat split; try discriminate; reflexivity.
  - split; [exact H|split; [|discriminate]].
    cbn [fst]. pose proof (count_kinds_length (c :: cells)).
    pose proof (count_raw_not_raw _ Hr). lia.
Qed.

(** ** Sections between boundary markers *)

Lemma prefixb_nth (p s t : pystr) (c d : ascii) :
  prefixb p (s ++ c :: t) = true -> length s < length p -> nth (length s) p d = c.
Proof.
  revert p; induction s as [|x s IH]; intros [|y p] H Hl; cbn [length] in Hl; try lia.
  - cbn [app prefixb] in H. apply andb_true_iff in H as [H _].
    now apply Ascii.eqb_eq in H.
  - cbn [app prefixb] in H. apply andb_true_iff in H as [_ H].
    cbn [length nth]. apply IH; [exact H|lia].
Qed.

Lemma prefixb_self (p s : pystr) : prefixb p (p ++ s) = true.
Proof. induction p as [|x p IH]; [reflexivity|]. cbn. now rewrite Ascii.eqb_refl. Qed.

Lemma split_go_skip (sep x r cur : pystr) :
  split_go sep (x ++ r) (length x) cur = split_go sep r 0 cur.
Proof. induction x as [|c x IH]; [reflexivity|]. exact IH. Qed.

(** A separator whose first character does not occur again in it cannot
    start inside a piece and run on into a following occurrence. *)
Lemma split_go_cut (sep a b cur : pystr) (c0 : ascii) (sep' : pystr) :
  sep = c0 :: sep' -> ~ In c0 sep' ->
  occurs sep a = false ->
  split_go sep (a ++ sep ++ b) 0 cur = (rev cur ++ a) :: split_go sep b 0 [].
Proof.
  intros -> Hc. revert cur; induction a as [|x a IH]; intros cur Ha.
  - cbn [app split_go].
    change (c0 :: sep' ++ b) with ((c0 :: sep') ++ b). rewrite prefixb_self, app_nil_r.
    f_equal. replace (length (c0 :: sep') - 1) with (length sep') by (cbn; lia).
    apply split_go_skip.
  - apply occurs_cons_false in Ha as [Hp Ha].
    cbn [app split_go].
    assert (prefixb (c0 :: sep') (x :: a ++ c0 :: sep' ++ b) = false) as ->.
    { change (x :: a ++ c0 :: sep' ++ b) with ((x :: a) ++ (c0 :: sep') ++ b).
      destruct (Nat.le_gt_cases (length (c0 :: sep')) (length (x :: a))) as [Hl|Hl].
      - now rewrite prefixb_long.
      - apply not_true_iff_false. intros E.
        change ((x :: a) ++ (c0 :: sep') ++ b) with ((x :: a) ++ c0 :: (sep' ++ b)) in E.
        apply (prefixb_nth _ _ _ _ c0) in E; [|exact Hl].
        cbn [length nth] in E, Hl. apply Hc.
        rewrite <- E. apply nth_In. lia. }
    rewrite IH by exact Ha. cbn [rev]. now rewrite <- app_assoc.
Qed.

Lemma boundary_head : CELL_BOUNDARY = "<"%char :: tl CELL_BOUNDARY.
Proof. reflexivity. Qed.

Lemma boundary_head_once : ~ In "<"%char (tl CELL_BOUNDARY).
Proof. vm_compute. intuition discriminate. Qed.

Lemma split_boundary (a b : pystr) :
  occurs CELL_BOUNDARY a = false ->
  split (a ++ CELL_BOUNDARY ++ b) CELL_BOUNDARY = a :: split b CELL_BOUNDARY.
Proof.
  intros Ha. unfold split.
  now rewrite (split_go_cut _ _ _ _ _ _ boundary_head boundary_head_once Ha).
Qed.

Lemma split_join_boundary (l : list pystr) :
  l <> [] -> Forall (fun t => occurs CELL_BOUNDARY t = false) l ->
  split (join CELL_BOUNDARY l) CELL_BOUNDARY = l.
Proof.
  intros Hne H. induction H as [|x l Hx Hl IH]; [congruence|].
  destruct l as [|y l].
  - now apply split_no_occurrence.
  - change (join CELL_BOUNDARY (x :: y :: l))
      with (x ++ CELL_BOUNDARY ++ join CELL_BOUNDARY (y :: l)).
    rewrite split_boundary by exact Hx. f_equal. apply IH. discriminate.
Qed.

Lemma sections_loop_concat (content : pystr) :
  fst (sections_loop content) = concat (map sec_cells (split content CELL_BOUNDARY)).
Proof.
  unfold sections_loop.
  match goal with |- fst (fold_left ?f _ _) = _ =>
    assert (forall l c n, fst (fold_left f l (c, n)) = c ++ concat (map sec_cells l)) as G end.
  { induction l as [|s l IH]; intros c n; cbn [fold_left map concat].
    - now rewrite app_nil_r.
    - unfold sec_cells at 1. destruct (truthy (strip s)); cbn [negb].
      + rewrite IH. now rewrite app_assoc.
      + rewrite IH. reflexivity. }
  rewrite G. reflexivity.
Qed.

Lemma process_section_nonnil (section : pystr) :
  section <> [] -> process_section section <> [].
Proof.
  intros H. unfold process_section.
  destruct (fold_left (match_step section) (finditer section) (0, [])) as [le sc].
  set (sc' := if le <? length section then _ else sc).
  apply truthy_nonnil in H. rewrite H, andb_true_r.
  destruct sc' as [|e sc'']; cbn [truthy negb]; discriminate.
Qed.

Lemma sec_cells_nonnil (t : pystr) : strip t <> [] -> sec_cells t <> [].
Proof.
  intros H. unfold sec_cells. cbv zeta.
  destruct (strip t) as [|c u] eqn:E; [congruence|]. cbn [truthy].
  rewrite <- E. intros M. apply map_eq_nil in M. revert M. apply process_section_nonnil.
  now rewrite E.
Qed.

Lemma parse_cells_piece (t : pystr) :
  occurs CELL_BOUNDARY t = false -> strip t <> [] -> parse_cells t = sec_cells t.
Proof.
  intros Ho Hs.
  assert (fst (sections_loop t) = sec_cells t) as E.
  { rewrite sections_loop_concat, split_no_occurrence by exact Ho.
    cbn [map concat]. apply app_nil_r. }
  rewrite parse_cells_loop; [exact E|]. rewrite E. now apply sec_cells_nonnil.
Qed.

(** Text made of non-blank pieces joined by the boundary marker is parsed
    piece by piece: the notebook is the concatenation of the notebooks of
    the pieces, each parsed on its own. *)
Theorem parse_cells_join_boundary (l : list pystr) :
  l <> [] ->
  Forall (fun t => occurs CELL_BOUNDARY t = false /\ strip t <> []) l ->
  parse_cells (join CELL_BOUNDARY l) = concat (map parse_cells l).
Proof.
  intros Hne H.
  assert (Forall (fun t => occurs CELL_BOUNDARY t = false) l) as Ho
    by (eapply Forall_impl; [|exact H]; now intros t [? _]).
  assert (map parse_cells l = map sec_cells l) as Em.
  { apply map_ext_Forall. eapply Forall_impl; [|exact H].
    intros t [? ?]. now apply parse_cells_piece. }
  assert (fst (sections_loop (join CELL_BOUNDARY l)) = concat (map sec_cells l)) as Es.
  { now rewrite sections_loop_concat, split_join_boundary. }
  rewrite Em, parse_cells_loop; [exact Es|]. rewrite Es.
  destruct l as [|t l]; [congruence|]. inversion H as [|? ? [_ Ht] _]; subst.
  cbn [map concat]. intros E. apply app_eq_nil in E as [E _]. revert E.
  now apply sec_cells_nonnil.
Qed.

(** ** Round trip of Markdown-only notebooks *)

Lemma next_is_skipn (cells : list cell) (i : nat) (c : cell) (l : list cell)
  (p : cell -> bool) :
  skipn i cells = c :: l -> next_is cells i p = match l with d :: _ => p d | [] => false end.
Proof.
  intros H. unfold next_is.
  assert (length cells = i + S (length l)) as Hl.
  { pose proof (length_skipn i cells) as E. rewrite H in E. cbn [length] in E.
    destruct (Nat.le_gt_cases i (length cells)) as [Hi|Hi].
    - lia.
    - rewrite skipn_all2 in H by lia. discriminate. }
  pose proof (nth_error_skipn i cells 1) as E. rewrite H, Nat.add_1_r in E.
  rewrite <- E. destruct l as [|d l]; cbn [nth_error length] in *.
  - apply andb_false_r.
  - replace (i <? length cells - 1) with true by (symmetry; apply Nat.ltb_lt; lia).
    reflexivity.
Qed.

Lemma skipn_S_cons {A} (i : nat) (l : list A) (x : A) (r : list A) :
  skipn i l = x :: r -> skipn (S i) l = r.
Proof.
  revert l; induction i as [|i IH]; intros [|y l] H; cbn in *; try discriminate.
  - now injection H as _ ->.
  - now apply IH.
Qed.

Lemma ser_loop_markdown (cells : list cell) (u : pystr) (l : list pystr) :
  forall (i : nat) (acc : list pystr) (cnt : nb_counts),
  skipn i cells = map Markdown (u :: l) ->
  Forall (fun v => truthy (strip v) = true) (u :: l) ->
  fst (ser_loop cells i (map Markdown (u :: l)) (acc, cnt))
  = acc ++ u :: concat (map (fun v => [[]; CELL_BOUNDARY; []; v]) l) ++ [[]].
Proof.
  revert u; induction l as [|v l IH]; intros u i acc cnt Hs Ht;
    inversion Ht as [|? ? Hu Hl]; subst.
  - cbn [map ser_loop ser_step]. rewrite Hu.
    rewrite (next_is_skipn _ _ _ _ _ Hs). cbn [fst map concat].
    now rewrite <- app_assoc.
  - change (ser_loop cells i (map Markdown (u :: v :: l)) (acc, cnt))
      with (ser_loop cells (S i) (map Markdown (v :: l))
              (ser_step cells (acc, cnt) i (Markdown u))).
    cbn [ser_step]. rewrite Hu.
    rewrite (next_is_skipn _ _ _ _ _ Hs). cbn [is_markdown map].
    apply skipn_S_cons in Hs.
    change (Markdown v :: map Markdown l) with (map Markdown (v :: l)).
    rewrite IH by assumption. cbn [map concat].
    rewrite <- !app_assoc. reflexivity.
Qed.

Lemma concat_marker_lines (l : list pystr) :
  concat (map (cons nl) (concat (map (fun v => [[]; CELL_BOUNDARY; []; v]) l)))
  = md_doc_tail l.
Proof.
  induction l as [|v l IH]; [reflexivity|].
  cbn [map concat]. rewrite map_app, concat_app, IH.
  unfold md_doc_tail, marker_sep. cbn [map concat app].
  rewrite app_nil_r. now rewrite <- !app_assoc.
Qed.

Lemma serialize_markdown (t : pystr) (rest : list pystr) :
  Forall (fun v => truthy (strip v) = true) (t :: rest) ->
  serialize (map Markdown (t :: rest)) = t ++ md_doc_tail rest.
Proof.
  intros H. unfold serialize, cells_to_md.
  pose proof (ser_loop_markdown (map Markdown (t :: rest)) t rest 0 [] nb_counts0
                eq_refl H) as E.
  destruct (ser_loop (map Markdown (t :: rest)) 0 (map Markdown (t :: rest)) ([], nb_counts0))
    as [content cnt].
  cbn [fst] in E |- *. subst content. cbn [app].
  destruct rest as [|r rest] using rev_ind.
  - cbn [map concat app]. change [t; []] with ([] ++ [t; []]).
    inversion H; subst. rewrite trim_trailing_last by assumption.
    symmetry. apply app_nil_r.
  - rewrite map_app, concat_app. cbn [map concat]. rewrite app_nil_r.
    assert (truthy (strip r) = true) as Hr.
    { apply Forall_inv_tail in H. apply Forall_app in H as [_ H]. now inversion H. }
    unfold pystr in *.
    assert (forall X : list (list ascii),
              t :: (X ++ [[]; CELL_BOUNDARY; []; r]) ++ [[]]
              = (t :: X ++ [[]; CELL_BOUNDARY; []]) ++ [r; []]) as Ex
      by (intros X; cbn [app]; now rewrite <- !app_assoc).
    rewrite Ex.
    rewrite trim_trailing_last by exact Hr.
    cbn [app]. rewrite <- app_assoc. cbn [app]. rewrite join_nl_cons.
    f_equal.
    change ([[]; CELL_BOUNDARY; []; r]) with
      (concat (map (fun v => [[]; CELL_BOUNDARY; []; v]) [r])).
    rewrite <- concat_app, <- map_app. apply concat_marker_lines.
Qed.

Lemma strip_app_spaces (x w : pystr) :
  Forall (fun c => is_space c = true) w -> strip (x ++ w) = strip x.
Proof.
  intros Hw. unfold strip. destruct (lstrip x) as [|c l] eqn:E.
  - rewrite lstrip_app_nil by exact E.
    rewrite <- (app_nil_r w), lstrip_spaces by exact Hw. reflexivity.
  - rewrite lstrip_app_nonnil by (rewrite E; discriminate). rewrite E.
    now apply rstrip_spaces.
Qed.

Lemma strip_spaces_app (w x : pystr) :
  Forall (fun c => is_space c = true) w -> strip (w ++ x) = strip x.
Proof. intros Hw. unfold strip. now rewrite lstrip_spaces. Qed.

Lemma blank_line_spaces : Forall (fun c => is_space c = true) [nl; nl].
Proof. repeat constructor. Qed.

Lemma boundary_no_nl : disjointb [nl; nl] CELL_BOUNDARY = true.
Proof. vm_compute. reflexivity. Qed.

Lemma boundary_nonnil : CELL_BOUNDARY <> [].
Proof. discriminate. Qed.

Lemma sec_cells_plain (u : pystr) :
  occurs fence u = false -> strip u <> [] -> sec_cells u = [Markdown (strip u)].
Proof.
  intros Hf Hs. unfold sec_cells. cbv zeta.
  replace (truthy (strip u)) with true by (symmetry; now apply truthy_nonnil).
  rewrite process_section_no_fence; [reflexivity| |apply strip_idem|exact Hs].
  now apply occurs_strip_false.
Qed.

Lemma sections_md_doc (rest : list pystr) :
  forall x : pystr,
  occurs CELL_BOUNDARY x = false ->
  Forall (fun u => occurs CELL_BOUNDARY u = false) rest ->
  concat (map sec_cells (split (x ++ md_doc_tail rest) CELL_BOUNDARY))
  = sec_cells x ++ concat (map sec_cells rest).
Proof.
  induction rest as [|u rest IH]; intros x Hx Hr.
  - change (md_doc_tail []) with (@nil ascii). rewrite app_nil_r.
    rewrite split_no_occurrence by exact Hx. cbn [map concat]. reflexivity.
  - inversion Hr as [|? ? Hu Hrest]; subst.
    assert (x ++ md_doc_tail (u :: rest)
            = (x ++ [nl; nl]) ++ CELL_BOUNDARY ++ (([nl; nl] ++ u) ++ md_doc_tail rest)) as ->.
    { unfold md_doc_tail, marker_sep. cbn [map concat]. now rewrite <- !app_assoc. }
    assert (occurs CELL_BOUNDARY (x ++ [nl; nl]) = false) as H1.
    { rewrite <- (app_nil_r (x ++ [nl; nl])), <- app_assoc.
      apply occurs_glue; [exact boundary_nonnil|exact boundary_no_nl|exact Hx|].
      now apply occurs_nil. }
    assert (occurs CELL_BOUNDARY ([nl; nl] ++ u) = false) as H2.
    { change ([nl; nl] ++ u) with ([] ++ [nl; nl] ++ u).
      apply occurs_glue; [exact boundary_nonnil|exact boundary_no_nl| |exact Hu].
      now apply occurs_nil. }
    rewrite split_boundary by exact H1. cbn [map concat].
    rewrite IH by assumption. unfold sec_cells.
    rewrite strip_app_spaces, strip_spaces_app by exact blank_line_spaces.
    now rewrite app_assoc.
Qed.

Lemma parse_md_doc (t : pystr) (rest : list pystr) :
  Forall (fun u => occurs fence u = false /\ occurs CELL_BOUNDARY u = false /\ strip u <> [])
    (t :: rest) ->
  parse_cells (t ++ md_doc_tail rest) = map (fun u => Markdown (strip u)) (t :: rest).
Proof.
  intros H.
  assert (concat (map sec_cells (t :: rest)) = map (fun u => Markdown (strip u)) (t :: rest))
    as Ec.
  { clear -H. induction H as [|u l [Hf [_ Hs]] _ IH]; [reflexivity|].
    cbn [map concat]. rewrite IH, sec_cells_plain by assumption. reflexivity. }
  inversion H as [|? ? [_ [Ht _]] Hrest]; subst.
  assert (fst (sections_loop (t ++ md_doc_tail rest))
          = map (fun u => Markdown (strip u)) (t :: rest)) as Es.
  { rewrite sections_loop_concat, sections_md_doc; [exact Ec|exact Ht|].
    eapply Forall_impl; [|exact Hrest]. now intros u [_ [? _]]. }
  rewrite parse_cells_loop; [exact Es|]. rewrite Es. discriminate.
Qed.

(** A notebook of Markdown cells, each non-blank and holding neither a
    triple backtick nor the boundary marker, comes back from serializing and
    parsing as the same Markdown cells, each text stripped. *)
Theorem markdown_round_trip (t : pystr) (rest : list pystr) :
  Forall (fun u => occurs fence u = false /\ occurs CELL_BOUNDARY u = false /\ strip u <> [])
    (t :: rest) ->
  parse_cells (serialize (map Markdown (t :: rest)))
  = map (fun u => Markdown (strip u)) (t :: rest).
Proof.
  intros H.
  rewrite serialize_markdown
    by (eapply Forall_impl; [|exact H]; intros u [_ [_ Hs]]; now apply truthy_nonnil).
  now apply parse_md_doc.
Qed.

(** ** A blank Code cell between two Markdown cells *)

Lemma fence_no_nl : disjointb [nl; nl] fence = true.
Proof. vm_compute. reflexivity. Qed.

Lemma fence_nonnil : fence <> [].
Proof. discriminate. Qed.

Lemma occurs_blank_line (p a b : pystr) :
  p <> [] -> disjointb [nl; nl] p = true ->
  occurs p a = false -> occurs p b = false -> occurs p (a ++ [nl; nl] ++ b) = false.
Proof. intros. now apply occurs_glue. Qed.

Lemma strip_blank_line (a b : pystr) :
  strip a <> [] -> strip b <> [] ->
  strip (a ++ [nl; nl] ++ b) = lstrip a ++ [nl; nl] ++ rstrip b.
Proof.
  intros Ha Hb.
  assert (lstrip a <> []) as La by (intros E; apply Ha; unfold strip; now rewrite E).
  assert (rstrip b <> []) as Rb
    by (intros E; apply Hb; now rewrite <- lstrip_rstrip_strip, E).
  assert (rstrip ([nl; nl] ++ b) = [nl; nl] ++ rstrip b) as R
    by (apply rstrip_app_nonnil; exact Rb).
  unfold strip. rewrite lstrip_app_nonnil by exact La.
  rewrite rstrip_app_nonnil by (rewrite R; discriminate). now rewrite R.
Qed.

(** A Code cell with blank text between two Markdown cells writes nothing
    and keeps the first Markdown cell from emitting the boundary marker, so
    the two texts are joined by one blank line and parsed back as one
    Markdown cell. *)
Theorem blank_code_cell_merges_markdown (a c b : pystr) :
  strip a <> [] -> strip b <> [] -> strip c = [] ->
  occurs fence a = false -> occurs fence b = false ->
  occurs CELL_BOUNDARY a = false -> occurs CELL_BOUNDARY b = false ->
  serialize [Markdown a; Code c; Markdown b] = a ++ [nl; nl] ++ b
  /\ parse_cells (serialize [Markdown a; Code c; Markdown b])
     = [Markdown (lstrip a ++ [nl; nl] ++ rstrip b)].
Proof.
  intros Ha Hb Hc Fa Fb Ma Mb.
  assert (serialize [Markdown a; Code c; Markdown b] = a ++ [nl; nl] ++ b) as Es.
  { apply truthy_nonnil in Ha, Hb.
    unfold serialize, cells_to_md; cbn [ser_loop ser_step]; rewrite Ha, Hb, Hc.
    match goal with |- context [next_is ?l 0 ?p] =>
      let v := eval vm_compute in (next_is l 0 p) in change (next_is l 0 p) with v end.
    match goal with |- context [next_is ?l 2 ?p] =>
      let v := eval vm_compute in (next_is l 2 p) in change (next_is l 2 p) with v end.
    cbv iota. cbn [fst app truthy].
    change [a; []; b; []] with ([a; []] ++ [b; []]).
    rewrite trim_trailing_last by exact Hb. cbn [app]. rewrite join_nl_cons.
    cbn [map concat app]. now rewrite app_nil_r. }
  split; [exact Es|]. rewrite Es.
  assert (strip (a ++ [nl; nl] ++ b) <> []) as Hs
    by (rewrite strip_blank_line by assumption; intros E; apply app_eq_nil in E as [_ E];
        discriminate).
  rewrite parse_cells_loop.
  - rewrite sections_loop_single.
    + rewrite process_section_no_fence.
      * cbn [map make_cell]. now rewrite strip_blank_line.
      * apply occurs_strip_false, occurs_blank_line; auto using fence_nonnil, fence_no_nl.
      * apply strip_idem.
      * exact Hs.
    + apply occurs_blank_line; auto using boundary_nonnil, boundary_no_nl.
    + now apply truthy_nonnil.
  - rewrite sections_loop_single.
    + rewrite process_section_no_fence; [discriminate| | |exact Hs].
      * apply occurs_strip_false, occurs_blank_line; auto using fence_nonnil, fence_no_nl.
      * apply strip_idem.
    + apply occurs_blank_line; auto using boundary_nonnil, boundary_no_nl.
    + now apply truthy_nonnil.
Qed.

(** ** Round trip of Raw-only notebooks *)

Lemma ser_loop_raw (cells : list cell) (u : pystr) (l : list pystr) :
  forall (i : nat) (acc : list pystr) (cnt : nb_counts),
  skipn i cells = map Raw (u :: l) ->
  Forall (fun v => truthy (strip v) = true) (u :: l) ->
  fst (ser_loop cells i (map Raw (u :: l)) (acc, cnt))
  = acc ++ u :: concat (map (fun v => [[]; CELL_BOUNDARY; []; v]) l) ++ [[]].
Proof.
  revert u; induction l as [|v l IH]; intros u i acc cnt Hs Ht;
    inversion Ht as [|? ? Hu Hl]; subst.
  - cbn [map ser_loop ser_step]. rewrite Hu.
    rewrite (next_is_skipn _ _ _ _ _ Hs). cbn [fst map concat].
    now rewrite <- app_assoc.
  - change (ser_loop cells i (map Raw (u :: v :: l)) (acc, cnt))
      with (ser_loop cells (S i) (map Raw (v :: l))
              (ser_step cells (acc, cnt) i (Raw u))).
    cbn [ser_step]. rewrite Hu.
    rewrite (next_is_skipn _ _ _ _ _ Hs). cbn [is_markdown_or_raw map].
    apply skipn_S_cons in Hs.
    change (Raw v :: map Raw l) with (map Raw (v :: l)).
    rewrite IH by assumption. cbn [map concat].
    rewrite <- !app_assoc. reflexivity.
Qed.

Lemma serialize_raw (t : pystr) (rest : list pystr) :
  Forall (fun v => truthy (strip v) = true) (t :: rest) ->
  serialize (map Raw (t :: rest)) = t ++ md_doc_tail rest.
Proof.
  intros H. unfold serialize, cells_to_md.
  pose proof (ser_loop_raw (map Raw (t :: rest)) t rest 0 [] nb_counts0
                eq_refl H) as E.
  destruct (ser_loop (map Raw (t :: rest)) 0 (map Raw (t :: rest)) ([], nb_counts0))
    as [content cnt].
  cbn [fst] in E |- *. subst content. cbn [app].
  destruct rest as [|r rest] using rev_ind.
  - cbn [map concat app]. change [t; []] with ([] ++ [t; []]).
    inversion H; subst. rewrite trim_trailing_last by assumption.
    symmetry. apply app_nil_r.
  - rewrite map_app, concat_app. cbn [map concat]. rewrite app_nil_r.
    assert (truthy (strip r) = true) as Hr.
    { apply Forall_inv_tail in H. apply Forall_app in H as [_ H]. now inversion H. }
    unfold pystr in *.
    assert (forall X : list (list ascii),
              t :: (X ++ [[]; CELL_BOUNDARY; []; r]) ++ [[]]
              = (t :: X ++ [[]; CELL_BOUNDARY; []]) ++ [r; []]) as Ex
      by (intros X; cbn [app]; now rewrite <- !app_assoc).
    rewrite Ex.
    rewrite trim_trailing_last by exact Hr.
    cbn [app]. rewrite <- app_assoc. cbn [app]. rewrite join_nl_cons.
    f_equal.
    change ([[]; CELL_BOUNDARY; []; r]) with
      (concat (map (fun v => [[]; CELL_BOUNDARY; []; v]) [r])).
    rewrite <- concat_app, <- map_app. apply concat_marker_lines.
Qed.

(** A notebook of Raw cells, each non-blank and holding neither a triple
    backtick nor the boundary marker, comes back from serializing and parsing
    as Markdown cells with the same texts, stripped. *)
Theorem raw_round_trip (t : pystr) (rest : list pystr) :
  Forall (fun u => occurs fence u = false /\ occurs CELL_BOUNDARY u = false /\ strip u <> [])
    (t :: rest) ->
  parse_cells (serialize (map Raw (t :: rest)))
  = map (fun u => Markdown (strip u)) (t :: rest).
Proof.
  intros H.
  rewrite serialize_raw
    by (eapply Forall_impl; [|exact H]; intros u [_ [_ Hs]]; now apply truthy_nonnil).
  now apply parse_md_doc.
Qed.

(** ** Concrete runs of the properties above *)

Lemma serialize_blank_notebook_witness :
  serialize [Markdown (lit " "); Code []; Raw (lit "  ")] = [].
Proof.
  apply serialize_blank_notebook.
  repeat (apply Forall_cons; [vm_compute; reflexivity|]). apply Forall_nil.
Defined.

Lemma missing_source_rejected_witness :
  convert_md_to_ipynb example_write (lit "/work/none.md") (lit "/out") example_fs
    = (error_dict (lit "Source file not found: " ++ lit "/work/none.md"), example_fs)
  /\ convert_ipynb_to_md example_read (lit "/work/none.md") (lit "/out") example_fs
    = (error_dict (lit "Source file not found: " ++ lit "/work/none.md"), example_fs).
Proof. apply missing_source_rejected. vm_compute. reflexivity. Defined.

Lemma wrong_suffix_rejected_witness :
  convert_md_to_ipynb example_write (lit "/work/book.ipynb") (lit "/out") example_fs
  = (error_dict (lit "Source file must be a .md or .markdown file, got: " ++ lit ".ipynb"),
     example_fs).
Proof.
  destruct (wrong_suffix_rejected example_read example_write (lit "/work/book.ipynb")
              (lit "/out") example_fs) as [H _]; [vm_compute; reflexivity|].
  apply H. vm_compute. reflexivity.
Defined.

Lemma output_dir_file_rejected_witness :
  dict_get (fst (convert_ipynb_to_md example_read (lit "/work/book.ipynb")
                   (lit "/work/notes.md") example_fs)) (lit "status")
    = Some (VStr (lit "error"))
  /\ snd (convert_ipynb_to_md example_read (lit "/work/book.ipynb")
            (lit "/work/notes.md") example_fs) = example_fs.
Proof.
  destruct (output_dir_file_rejected example_read example_write (lit "/work/book.ipynb")
              (lit "/work/notes.md") (lit "  ") example_fs) as [_ H];
    [vm_compute; reflexivity|vm_compute; reflexivity|].
  apply H. vm_compute. reflexivity.
Defined.

Lemma conversion_touches_only_output_witness :
  lookup_file (snd (convert_md_to_ipynb example_write (lit "/work/notes.md") (lit "/work")
                      example_fs)) (lit "/work/book.ipynb")
  = lookup_file example_fs (lit "/work/book.ipynb").
Proof.
  destruct (conversion_touches_only_output example_read example_write (lit "/work/notes.md")
              (lit "/work") (lit "/work/book.ipynb") example_fs) as [H _].
  apply H. vm_compute. discriminate.
Defined.

Lemma md_to_ipynb_writes_notebook_witness :
  exists content,
    lookup_file example_fs (lit "/work/notes.md") = Some content
    /\ dict_get (fst (convert_md_to_ipynb example_write (lit "/work/notes.md") (lit "/out")
                        example_fs)) (lit "output_path")
       = Some (VStr (path_join (lit "/out") (path_stem (lit "/work/notes.md") ++ lit ".ipynb")))
    /\ lookup_file (snd (convert_md_to_ipynb example_write (lit "/work/notes.md") (lit "/out")
                           example_fs))
         (path_join (lit "/out") (path_stem (lit "/work/notes.md") ++ lit ".ipynb"))
       = Some (example_write (parse_cells (univ_newlines content))).
Proof.
  apply (md_to_ipynb_writes_notebook example_write (lit "/work/notes.md") (lit "/out")
           example_fs); vm_compute; reflexivity.
Defined.

Lemma ipynb_to_md_writes_text_witness :
  exists data cells,
    lookup_file example_fs (lit "/work/book.ipynb") = Some data
    /\ example_read (univ_newlines data) = inr cells
    /\ dict_get (fst (convert_ipynb_to_md example_read (lit "/work/book.ipynb") (lit "/out")
                        example_fs)) (lit "output_path")
       = Some (VStr (path_join (lit "/out") (path_stem (lit "/work/book.ipynb") ++ lit ".md")))
    /\ lookup_file (snd (convert_ipynb_to_md example_read (lit "/work/book.ipynb") (lit "/out")
                           example_fs))
         (path_join (lit "/out") (path_stem (lit "/work/book.ipynb") ++ lit ".md"))
       = Some (serialize cells).
Proof.
  apply (ipynb_to_md_writes_text example_read (lit "/work/book.ipynb") (lit "/out")
           example_fs); vm_compute; reflexivity.
Defined.

Lemma unreadable_notebook_rejected_witness :
  convert_ipynb_to_md example_bad_read (lit "/work/book.ipynb") (lit "/work") example_fs
  = (error_dict (lit "Notebook does not appear to be JSON"), example_fs).
Proof.
  apply (unreadable_notebook_rejected example_bad_read (lit "/work/book.ipynb") (lit "/work")
           (lit "{}")); vm_compute; reflexivity.
Defined.

Lemma call_tool_requires_arguments_witness :
  call_tool example_dumps example_read example_write (lit "convert_markdown")
    [(lit "source_path", lit "/work/notes.md")] example_fs
  = ([example_dumps (error_dict (lit "Error occurred during tool execution: "
                                 ++ lit "source_path and output_dir are required arguments."))],
     example_fs).
Proof. apply call_tool_requires_arguments. right. vm_compute. reflexivity. Defined.

Lemma call_tool_unknown_name_witness :
  call_tool example_dumps example_read example_write (lit "convert")
    [(lit "source_path", lit "/work/notes.md"); (lit "output_dir", lit "/out")] example_fs
  = ([example_dumps (error_dict (lit "Error occurred during tool execution: "
                                 ++ lit "Unknown tool name: " ++ lit "convert"))],
     example_fs).
Proof. apply call_tool_unknown_name; vm_compute; reflexivity. Defined.

Lemma call_tool_touches_only_output_witness :
  lookup_file (snd (call_tool example_dumps example_read example_write (lit "convert_markdown")
                      [(lit "source_path", lit "/work/notes.md"); (lit "output_dir", lit "/work")]
                      example_fs)) (lit "/work/book.ipynb")
  = lookup_file example_fs (lit "/work/book.ipynb").
Proof. apply call_tool_touches_only_output; vm_compute; discriminate. Defined.

Lemma parse_cells_join_boundary_witness :
  parse_cells (join CELL_BOUNDARY [lit "A"; lit " B "])
  = concat (map parse_cells [lit "A"; lit " B "]).
Proof.
  apply parse_cells_join_boundary; [discriminate|].
  repeat (apply Forall_cons; [split; [vm_compute; reflexivity|vm_compute; discriminate]|]).
  apply Forall_nil.
Defined.

Lemma markdown_round_trip_witness :
  parse_cells (serialize (map Markdown [lit "A "; lit "B"]))
  = map (fun u => Markdown (strip u)) [lit "A "; lit "B"].
Proof.
  apply markdown_round_trip.
  repeat (apply Forall_cons;
          [split; [vm_compute; reflexivity|split; [vm_compute; reflexivity|vm_compute; discriminate]]|]).
  apply Forall_nil.
Defined.

Lemma blank_code_cell_merges_markdown_witness :
  serialize [Markdown (lit "A"); Code (lit " "); Markdown (lit "B")]
    = lit "A" ++ [nl; nl] ++ lit "B"
  /\ parse_cells (serialize [Markdown (lit "A"); Code (lit " "); Markdown (lit "B")])
     = [Markdown (lstrip (lit "A") ++ [nl; nl] ++ rstrip (lit "B"))].
Proof.
  apply blank_code_cell_merges_markdown; vm_compute; (discriminate || reflexivity).
Defined.

Lemma raw_round_trip_witness :
  parse_cells (serialize (map Raw [lit "A"; lit " B"]))
  = map (fun u => Markdown (strip u)) [lit "A"; lit " B"].
Proof.
  apply raw_round_trip.
  repeat (apply Forall_cons;
          [split; [vm_compute; reflexivity|split; [vm_compute; reflexivity|vm_compute; discriminate]]|]).
  apply Forall_nil.
Defined.
